(** * Music recommendation system: data loading, artist directory, facade

    A shallow embedding of [MR.py] (the interaction loader
    [load_user_artists] and the class [ArtistRetriever]) and of
    [recommender.py] (the class [ImplicitRecommender]), followed by the
    properties of the written specification that concern them.

    The program is a thin layer over three external libraries.  They are
    modelled at the interface the program uses:
    - pandas: a [DataFrame] is an index plus named, typed columns;
      [read_csv] itself (text to table) is a parameter of the development;
    - scipy.sparse: a matrix in coordinate form ([coo_matrix]) and in
      row form ([csr_matrix]), with scipy's shape inference, argument
      checks and summation of duplicate coordinates;
    - implicit: the model is an opaque state with the two operations
      [model_fit] and [model_recommend], both parameters.

    Python exceptions are values of [exn]; a computation that may raise
    returns a [result].  Objects with attributes live in a [heap]. *)

From stdpp Require Import base option list gmap strings.
From Stdlib Require Import ZArith Lia DecimalString Sorted.
From Stdlib Require PrimFloat Uint63.

Local Open Scope Z_scope.

(** ** Exceptions and results *)

Inductive exn : Set :=
  | KeyError | AttributeError | ValueError | TypeError | IndexError
  | FileNotFoundError | ParserError | ModelError.

Inductive result (A : Type) : Type :=
  | Ok (a : A)
  | Raise (e : exn).
Arguments Ok {A} a.
Arguments Raise {A} e.

#[global] Instance exn_eq_dec : EqDecision exn.
Proof. solve_decision. Defined.

#[global] Instance result_ret : MRet result := @Ok.
#[global] Instance result_bind : MBind result := fun A B f m =>
  match m with Ok a => f a | Raise e => Raise e end.

Definition is_Ok {A} (r : result A) : bool :=
  match r with Ok _ => true | Raise _ => false end.

Definition of_option {A} (e : exn) (o : option A) : result A :=
  match o with Some a => Ok a | None => Raise e end.

(** [[f(x) for x in xs]]: evaluation stops at the first element that raises. *)
Fixpoint result_map {A B} (f : A -> result B) (xs : list A) : result (list B) :=
  match xs with
  | [] => Ok []
  | x :: xs' => y ← f x; ys ← result_map f xs'; Ok (y :: ys)
  end.

(** Python's subscript on an axis of length [n]: a negative index counts
    from the end, anything outside [-n, n) raises IndexError. *)
Definition norm_index (k n : Z) : result Z :=
  if (k <? - n) || (n <=? k) then Raise IndexError
  else Ok (if k <? 0 then k + n else k).

(** [max(xs)] and [min(xs)] of a non-empty array. *)
Definition list_max (xs : list Z) : Z :=
  match xs with [] => 0 | x :: xs' => foldl Z.max x xs' end.
Definition list_min (xs : list Z) : Z :=
  match xs with [] => 0 | x :: xs' => foldl Z.min x xs' end.

(** The sum of a list of integers. *)
Definition zsum (zs : list Z) : Z := foldr Z.add 0 zs.

(** Object addresses. *)
Abbreviation loc := positive.

Section Program.

(** Weights are 64-bit floats in the source.  The development is
    parametric in the type of weights: [wadd] is its addition, [w0] its
    zero, [W_of_Z] the conversion of an integer and [float_of_string]
    Python's [float(str)].  No law of [wadd] is built in: a statement
    that needs addition to be exact says so in a premise of its own. *)
Context {W : Type} `{!EqDecision W}.
Variables (w0 : W) (wadd : W -> W -> W) (W_of_Z : Z -> W).
Variable float_of_string : string -> option W.

Definition wsum (ws : list W) : W := foldr wadd w0 ws.

(** ** pandas: typed columns and data frames *)

(** A column as the parser delivers it: dtype int64, float64 or object
    (text).  An empty column has dtype object. *)
Inductive column : Type :=
  | IntCol (xs : list Z)
  | FloatCol (xs : list W)
  | ObjCol (xs : list string).

Definition col_length (c : column) : nat :=
  match c with
  | IntCol xs => length xs
  | FloatCol xs => length xs
  | ObjCol xs => length xs
  end.

(** [index] holds the levels of the row index ([[]] stands for the
    default positional index of a freshly parsed table); [columns] maps
    a column label to its values. *)
Record DataFrame : Type := mkDataFrame {
  index : list column;
  columns : gmap string column
}.

(** [df.set_index(keys)]: KeyError if a key is not a column; the key
    columns become the index levels and leave [columns]. *)
Definition set_index (keys : list string) (df : DataFrame) : result DataFrame :=
  match mapM (fun k => columns df !! k) keys with
  | None => Raise KeyError
  | Some levels =>
      Ok {| index := levels; columns := foldr delete (columns df) keys |}
  end.

(** [df.<name>]: attribute access to a column. *)
Definition getattr_column (name : string) (df : DataFrame) : result column :=
  of_option AttributeError (columns df !! name).

(** [series.astype(float)] *)
Definition astype_float (c : column) : result (list W) :=
  match c with
  | IntCol xs => Ok (W_of_Z <$> xs)
  | FloatCol xs => Ok xs
  | ObjCol xs => result_map (fun s => of_option ValueError (float_of_string s)) xs
  end.

(** [df.index.get_level_values(k)] *)
Definition get_level_values (k : nat) (df : DataFrame) : result column :=
  of_option IndexError (index df !! k).

(** ** scipy.sparse: coordinate and row form *)

Record coo_matrix : Type := mkCoo {
  coo_shape : Z * Z;
  coo_row : list Z;
  coo_col : list Z;
  coo_data : list W
}.

(** An index array must be of integer dtype: scipy takes
    [operator.index] of its maximum. *)
Definition int_array (c : column) : result (list Z) :=
  match c with
  | IntCol xs => Ok xs
  | _ => Raise TypeError
  end.

(** [coo_matrix((data, (row, col)))] without a [shape] argument: the
    shape is inferred as one more than the largest index on each axis;
    empty index arrays, arrays of different lengths and negative
    indices are rejected with ValueError.  Indices are integers without
    bound here: the width of int64 (an id of 2^63 - 1 makes scipy raise
    OverflowError) and the memory the index arrays take are not
    modelled. *)
Definition coo_matrix_init (data : list W) (row col : column) : result coo_matrix :=
  if bool_decide (col_length row = 0%nat ∨ col_length col = 0%nat) then Raise ValueError
  else
    r ← int_array row;
    c ← int_array col;
    let shape := (list_max r + 1, list_max c + 1) in
    if bool_decide (length r = length data ∧ length c = length data) then
      if (list_min r <? 0) || (list_min c <? 0) then Raise ValueError
      else Ok {| coo_shape := shape; coo_row := r; coo_col := c; coo_data := data |}
    else Raise ValueError.

(** A matrix in row form: [rows] has one entry per matrix row, each the
    list of (column, value) pairs of its stored entries in increasing
    column order (scipy's canonical format). *)
Record csr_matrix : Type := mkCsr {
  shape : Z * Z;
  rows : list (list (Z * W))
}.

(** Add [w] at column [j] of a row, summing with a stored entry. *)
Fixpoint row_add (j : Z) (w : W) (r : list (Z * W)) : list (Z * W) :=
  match r with
  | [] => [(j, w)]
  | (k, v) :: r' =>
      if j <? k then (j, w) :: r
      else if j =? k then (k, wadd v w) :: r'
      else (k, v) :: row_add j w r'
  end.

Fixpoint row_get (j : Z) (r : list (Z * W)) : W :=
  match r with
  | [] => w0
  | (k, v) :: r' => if j =? k then v else row_get j r'
  end.

Definition row_sum (r : list (Z * W)) : W := wsum (snd <$> r).

Definition csr_add (m : list (list (Z * W))) (t : Z * Z * W) : list (list (Z * W)) :=
  let '(i, j, w) := t in alter (row_add j w) (Z.to_nat i) m.

Definition triples (coo : coo_matrix) : list (Z * Z * W) :=
  zip (zip (coo_row coo) (coo_col coo)) (coo_data coo).

(** The order in which [tocsr] meets the triples when it adds up those
    of one coordinate.  scipy places the triples row by row, sorts each
    row by column with a sort that need not keep equal columns in file
    order, and adds neighbours with equal column from left to right: the
    order is the library's, some rearrangement of the file order. *)
Record coo_order : Type := mkOrder {
  reorder : list (Z * Z * W) -> list (Z * Z * W);
  reorder_perm : forall ts, reorder ts ≡ₚ ts
}.

Variable order : coo_order.

(** [coo.tocsr()]: same shape; entries with equal coordinates are
    summed, one after another in the library's order. *)
Definition tocsr (coo : coo_matrix) : csr_matrix :=
  {| shape := coo_shape coo;
     rows := foldl csr_add (replicate (Z.to_nat (coo_shape coo).1) [])
                   (reorder order (triples coo)) |}.

(** [M[u, i]] *)
Definition getitem (M : csr_matrix) (u i : Z) : result W :=
  u' ← norm_index u (shape M).1;
  i' ← norm_index i (shape M).2;
  Ok (row_get i' (default [] (rows M !! Z.to_nat u'))).

(** [M[n]]: a new one-row matrix holding row [n]. *)
Definition getrow (M : csr_matrix) (n : Z) : result csr_matrix :=
  n' ← norm_index n (shape M).1;
  Ok {| shape := (1, (shape M).2);
        rows := [default [] (rows M !! Z.to_nat n')] |}.

(** [M.sum()]: the stored entries added up, row by row.  How the
    library groups these additions matters only where they round. *)
Definition csr_sum (M : csr_matrix) : W := wsum (row_sum <$> rows M).

(** Canonical format of a row: strictly increasing column indices. *)
Definition row_sorted (r : list (Z * W)) : Prop :=
  StronglySorted (fun a b => a.1 < b.1) r.

(** The weights, in file order, of the triples at coordinates [(u, i)]. *)
Definition weights_at (u i : Z) (ts : list (Z * Z * W)) : list W :=
  snd <$> filter (fun t => t.1 = (u, i)) ts.

(** The sum of a list of weights accumulated from left to right, the way
    [row_add] sums the duplicates of a coordinate: the first weight is
    stored, each later one is added to what is stored. *)
Definition wsum_left (ws : list W) : W :=
  match ws with [] => w0 | w :: ws' => foldl wadd w ws' end.

(** The stored entry of a row at column [j], if any, and the effect of
    adding [w] to it. *)
Fixpoint row_lookup (j : Z) (r : list (Z * W)) : option W :=
  match r with
  | [] => None
  | (k, v) :: r' => if j =? k then Some v else row_lookup j r'
  end.

Definition accumulate (o : option W) (w : W) : option W :=
  Some (match o with Some v => wadd v w | None => w end).

(** Addition without rounding.  [val] reads a weight as the non-negative
    integer it stands for in some unit (a negative reading marks a
    weight that stands for none); the sum of two such weights whose
    readings add up to at most [B] stands for the sum of the readings,
    and a weight is determined by its reading.  Addition of 64-bit
    floats is of this kind on the integers up to [B = 2^53]. *)
Record exact_add (val : W -> Z) (B : Z) : Prop := {
  exact_zero : val w0 = 0;
  exact_sum : forall a b, 0 <= val a -> 0 <= val b -> val a + val b <= B ->
                val (wadd a b) = val a + val b;
  exact_inj : forall a b, 0 <= val a <= B -> 0 <= val b <= B -> val a = val b -> a = b
}.

(** Weights that stand for non-negative integers of total at most [B]. *)
Definition summable (val : W -> Z) (B : Z) (ws : list W) : Prop :=
  Forall (fun w => 0 <= val w) ws /\ zsum (val <$> ws) <= B.

(** ** MR.py: the interaction loader *)

Variable read_csv : string -> result DataFrame.

Definition load_user_artists (user_artists_file : string) : result csr_matrix :=
  user_artists ← read_csv user_artists_file;
  user_artists ← set_index ["userID"; "artistID"] user_artists;
  weight ← getattr_column "weight" user_artists;
  data ← astype_float weight;
  row ← get_level_values 0 user_artists;
  col ← get_level_values 1 user_artists;
  coo ← coo_matrix_init data row col;
  Ok (tocsr coo).

(** A parsed interaction file as the written specification describes it:
    integer columns [userID] and [artistID] with non-negative ids, a
    [weight] column that converts to floats, one value per row in each,
    and at least one row. *)
Record interactions_table (df : DataFrame)
    (users items : list Z) (weights : list W) : Prop := {
  it_userID : columns df !! "userID" = Some (IntCol users);
  it_artistID : columns df !! "artistID" = Some (IntCol items);
  it_weight : exists c, columns df !! "weight" = Some c /\ astype_float c = Ok weights;
  it_users_length : length users = length weights;
  it_items_length : length items = length weights;
  it_nonempty : users <> [];
  it_users_nonneg : Forall (fun u => 0 <= u) users;
  it_items_nonneg : Forall (fun i => 0 <= i) items
}.

(** The matrix built from the three columns of such a table. *)
Definition interaction_matrix (users items : list Z) (weights : list W) : csr_matrix :=
  tocsr {| coo_shape := (list_max users + 1, list_max items + 1);
           coo_row := users; coo_col := items; coo_data := weights |}.

(** ** pandas: label lookup *)

(** A value read out of a table: one cell, or a Series of cells. *)
Inductive scalar : Type :=
  | SInt (z : Z)
  | SFloat (w : W)
  | SStr (s : string).

Inductive value : Type :=
  | Scalar (x : scalar)
  | Series (xs : list scalar).

Definition column_nth (c : column) (p : nat) : option scalar :=
  match c with
  | IntCol xs => SInt <$> xs !! p
  | FloatCol xs => SFloat <$> xs !! p
  | ObjCol xs => SStr <$> xs !! p
  end.

(** The positions of [xs], counted from [p], whose element satisfies [f]. *)
Fixpoint positions_from {A} (f : A -> bool) (p : nat) (xs : list A) : list nat :=
  match xs with
  | [] => []
  | x :: xs' =>
      if f x then p :: positions_from f (S p) xs' else positions_from f (S p) xs'
  end.

(** The rows of an index level that carry the integer label [key]: a
    text label never equals an integer. *)
Definition index_positions (key : Z) (ix : column) : list nat :=
  match ix with
  | IntCol xs => positions_from (fun x => bool_decide (x = key)) 0 xs
  | FloatCol xs => positions_from (fun x => bool_decide (x = W_of_Z key)) 0 xs
  | ObjCol _ => []
  end.

(** [df.loc[key, name]] for an integer [key]: KeyError if [name] is not a
    column or no row carries the label; the cell itself if the index has
    one level and exactly one row carries the label; a Series of the
    matching cells otherwise.  With the default index a label is a
    position. *)
Definition loc_getitem (df : DataFrame) (key : Z) (name : string) : result value :=
  col ← of_option KeyError (columns df !! name);
  match index df with
  | [] =>
      if key <? 0 then Raise KeyError
      else of_option KeyError (Scalar <$> column_nth col (Z.to_nat key))
  | ix :: levels =>
      match index_positions key ix, levels with
      | [], _ => Raise KeyError
      | [p], [] => of_option KeyError (Scalar <$> column_nth col p)
      | ps, _ => Ok (Series (omap (column_nth col) ps))
      end
  end.

(** ** Objects *)

(** The external model: an opaque state and its two operations.  Each
    returns the state it leaves behind together with its result; it sees
    only the arguments it is given. *)
Context {MS : Type}.
Variable model_fit : MS -> csr_matrix -> result unit * MS.
Variable model_recommend :
  MS -> Z -> csr_matrix -> Z -> result (list Z * list W) * MS.

(** The objects of the program, by class, with their attributes. *)
Inductive object : Type :=
  | ArtistRetrieverObj (_artists_df : option DataFrame)
  | ImplicitRecommenderObj (artist_retriever implicit_model : loc)
  | ModelObj (s : MS)
  | MatrixObj (m : csr_matrix).

Local Abbreviation heap := (gmap loc object).

(** What the model's [fit] does with an argument that is not a matrix:
    the facade passes its argument on unexamined. *)
Variable model_fit_object : MS -> object -> result unit * MS.

(** A method body: it reads and updates the heap and returns or raises.
    Updates made before an exception is raised persist. *)
Definition M (A : Type) : Type := heap -> result A * heap.

Definition ret {A} (a : A) : M A := fun h => (Ok a, h).
Definition raise {A} (e : exn) : M A := fun h => (Raise e, h).
Definition bind {A B} (m : M A) (k : A -> M B) : M B := fun h =>
  match m h with
  | (Ok a, h') => k a h'
  | (Raise e, h') => (Raise e, h')
  end.
Definition lift {A} (r : result A) : M A := fun h => (r, h).
Definition read (l : loc) : M (option object) := fun h => (Ok (h !! l), h).
Definition write (l : loc) (o : object) : M unit := fun h => (Ok (), <[l := o]> h).
(** Creation of an object, at an address not in use. *)
Definition alloc (o : object) : M loc := fun h =>
  let l := fresh (dom h) in (Ok l, <[l := o]> h).

Notation "'let*' x ':=' m 'in' k" := (bind m (fun x => k))
  (at level 10, x pattern, m at level 100, k at level 200).

Fixpoint mapM_heap {A B} (f : A -> M B) (xs : list A) : M (list B) :=
  match xs with
  | [] => ret []
  | x :: xs' =>
      let* y := f x in
      let* ys := mapM_heap f xs' in
      ret (y :: ys)
  end.

(** ** MR.py: class ArtistRetriever *)

(** [ArtistRetriever()]: a new object whose table is [None]. *)
Definition ArtistRetriever_init : M loc := alloc (ArtistRetrieverObj None).

(** [self._artists_df]; an object of another class has no such
    attribute, nor the methods below. *)
Definition get__artists_df (self : loc) : M (option DataFrame) :=
  let* o := read self in
  match o with
  | Some (ArtistRetrieverObj df) => ret df
  | _ => raise AttributeError
  end.

(** Method lookup on [self] succeeds on objects of the class only. *)
Definition is_ArtistRetriever (self : loc) : M unit :=
  let* o := read self in
  match o with
  | Some (ArtistRetrieverObj _) => ret ()
  | _ => raise AttributeError
  end.

Definition get_artist_name_from_id (self : loc) (artist_id : Z) : M value :=
  let* _artists_df := get__artists_df self in
  match _artists_df with
  | None => raise AttributeError
  | Some df => lift (loc_getitem df artist_id "name")
  end.

Definition load_artists (self : loc) (artists_file : string) : M unit :=
  let* _ := is_ArtistRetriever self in
  let* artists_df := lift (read_csv artists_file) in
  let* artists_df := lift (set_index ["id"] artists_df) in
  write self (ArtistRetrieverObj (Some artists_df)).

(** ** recommender.py: class ImplicitRecommender *)

Definition ImplicitRecommender_init (artist_retriever implicit_model : loc) : M loc :=
  alloc (ImplicitRecommenderObj artist_retriever implicit_model).

Definition get_artist_retriever (self : loc) : M loc :=
  let* o := read self in
  match o with
  | Some (ImplicitRecommenderObj ar _) => ret ar
  | _ => raise AttributeError
  end.

Definition get_implicit_model (self : loc) : M loc :=
  let* o := read self in
  match o with
  | Some (ImplicitRecommenderObj _ im) => ret im
  | _ => raise AttributeError
  end.

(** The object behind a model reference must offer [fit] and
    [recommend]. *)
Definition get_model_state (im : loc) : M MS :=
  let* o := read im in
  match o with
  | Some (ModelObj s) => ret s
  | _ => raise AttributeError
  end.

(** [user_artists_matrix[n]] needs a matrix: an object of another class
    is not subscriptable. *)
Definition get_matrix (m : loc) : M csr_matrix :=
  let* o := read m in
  match o with
  | Some (MatrixObj mat) => ret mat
  | _ => raise TypeError
  end.

(** A call of an operation of the external model at [im]: the model's
    new state is stored whether the operation returns or raises. *)
Definition call_model {A} (im : loc) (op : MS -> result A * MS) : M A :=
  let* s := get_model_state im in
  let '(r, s') := op s in
  let* _ := write im (ModelObj s') in
  lift r.

(** [self.implicit_model.fit(user_artists_matrix)]: the argument goes to
    the model as it is (an address always holds an object in a run). *)
Definition fit (self : loc) (user_artists_matrix : loc) : M unit :=
  let* im := get_implicit_model self in
  let* _ := get_model_state im in
  let* o := read user_artists_matrix in
  match o with
  | Some (MatrixObj mat) => call_model im (fun s => model_fit s mat)
  | Some o => call_model im (fun s => model_fit_object s o)
  | None => raise TypeError
  end.

Definition recommend (self : loc) (user_id : Z) (user_artists_matrix : loc) (n : Z)
  : M (list value * list W) :=
  let* im := get_implicit_model self in
  let* _ := get_model_state im in
  let* mat := get_matrix user_artists_matrix in
  let* row := lift (getrow mat n) in
  let* (artist_ids, scores) :=
    call_model im (fun s => model_recommend s user_id row n) in
  let* artists :=
    mapM_heap
      (fun artist_id =>
         let* ar := get_artist_retriever self in
         get_artist_name_from_id ar artist_id)
      artist_ids in
  ret (artists, scores).

(** The situation of a call [recommend(user_id, matrix, n)] on the heap
    [h] in which the model is reached and answers: [self] is a facade
    over the directory [ar] and the model [im], the matrix has a row
    [n], and the model, given that row, returns [(ids, scores)] and is
    left in state [s']. *)
Record model_answers (h : heap) (self : loc) (user_id : Z) (m : loc) (n : Z)
    (ar im : loc) (s' : MS) (ids : list Z) (scores : list W) : Prop := {
  ma_self : h !! self = Some (ImplicitRecommenderObj ar im);
  ma_model : exists s mat row,
    h !! im = Some (ModelObj s) /\ h !! m = Some (MatrixObj mat) /\
    getrow mat n = Ok row /\
    model_recommend s user_id row n = (Ok (ids, scores), s')
}.

(** The script of recommender.py, without its printing: the two paths
    and the freshly constructed model are its constants. *)
Definition main (user_artists_file artists_file : string) (als : MS)
  : M (list value * list W) :=
  let* user_artists := bind (lift (load_user_artists user_artists_file))
                            (fun mat => alloc (MatrixObj mat)) in
  let* artist_retriever := ArtistRetriever_init in
  let* _ := load_artists artist_retriever artists_file in
  let* implict_model := alloc (ModelObj als) in
  let* recommender := ImplicitRecommender_init artist_retriever implict_model in
  let* _ := fit recommender user_artists in
  recommend recommender 3 user_artists 10.

(** The script of MR.py, without its printing: the matrix it prints and
    the name of artist 1. *)
Definition MR_main (user_artists_file artists_file : string) : M (csr_matrix * value) :=
  let* user_artists_matrix := lift (load_user_artists user_artists_file) in
  let* artist_retriever := ArtistRetriever_init in
  let* _ := load_artists artist_retriever artists_file in
  let* artist := get_artist_name_from_id artist_retriever 1 in
  ret (user_artists_matrix, artist).

End Program.

Arguments column : clear implicits.
Arguments scalar : clear implicits.
Arguments value : clear implicits.
Arguments DataFrame : clear implicits.
Arguments coo_matrix : clear implicits.
Arguments coo_order : clear implicits.
Arguments csr_matrix : clear implicits.
Arguments object : clear implicits.

(** The heap: the objects in existence, by address. *)
Abbreviation heap W MS := (gmap loc (object W MS)).
Arguments M : clear implicits.

Arguments IntCol {W} xs.
Arguments ObjCol {W} xs.

(** ** A concrete world

    Integer weights, a few small files and a model that records how it
    is called: the instance at which the general statements below are
    exercised. *)

(** Stand-in for [float(str)] on integer weights: a decimal integer
    literal converts, any other text does not. *)
Definition Z_of_string (s : string) : option Z :=
  Z.of_int <$> NilZero.int_of_string s.

(** On integers the order of addition is immaterial: the file order. *)
Definition ex_order : coo_order Z :=
  {| reorder := fun ts => ts; reorder_perm := fun ts => Permutation_refl ts |}.

Definition ex_table (cols : list (string * column Z)) : DataFrame Z :=
  {| index := []; columns := list_to_map cols |}.

Definition ex_user_artists : DataFrame Z :=
  ex_table [("userID", IntCol [3; 3; 10]); ("artistID", IntCol [1; 1; 2]);
            ("weight", IntCol [5; 3; 7])].
Definition ex_scenario : DataFrame Z :=
  ex_table [("userID", IntCol [1; 1]); ("artistID", IntCol [10; 10]);
            ("weight", IntCol [5; 3])].
Definition ex_artists : DataFrame Z :=
  ex_table [("id", IntCol [1; 2]); ("name", ObjCol ["A"; "B"]);
            ("url", ObjCol ["http://a"; "http://b"])].
Definition ex_no_user : DataFrame Z :=
  ex_table [("artistID", IntCol [10]); ("weight", IntCol [5])].
Definition ex_no_weight : DataFrame Z :=
  ex_table [("userID", IntCol [1]); ("artistID", IntCol [10])].
Definition ex_bad_weight : DataFrame Z :=
  ex_table [("userID", IntCol [1; 2]); ("artistID", IntCol [10; 3]);
            ("weight", ObjCol ["5"; "abc"])].

Definition ex_read_csv (path : string) : result (DataFrame Z) :=
  if String.eqb path "user_artists.dat" then Ok ex_user_artists
  else if String.eqb path "scenario.dat" then Ok ex_scenario
  else if String.eqb path "artists.dat" then Ok ex_artists
  else if String.eqb path "no_user.dat" then Ok ex_no_user
  else if String.eqb path "no_weight.dat" then Ok ex_no_weight
  else if String.eqb path "bad_weight.dat" then Ok ex_bad_weight
  else Raise FileNotFoundError.

Definition ex_load_user_artists : string -> result (csr_matrix Z) :=
  load_user_artists Z.add id Z_of_string ex_order ex_read_csv.

(** A model that answers every request with [canned] and records the
    arguments of each call. *)
Record spy : Type := mkSpy {
  canned : result (list Z * list Z);
  fitted : bool;
  calls : list (Z * csr_matrix Z * Z)
}.

Definition spy_fit (s : spy) (mat : csr_matrix Z) : result unit * spy :=
  (Ok (), {| canned := canned s; fitted := true; calls := calls s |}).

(** Handed anything but a matrix, the spy refuses it. *)
Definition spy_fit_object (s : spy) (o : object Z spy) : result unit * spy :=
  (Raise TypeError, s).

Definition spy_recommend (s : spy) (user_id : Z) (row : csr_matrix Z) (n : Z)
  : result (list Z * list Z) * spy :=
  (canned s,
   {| canned := canned s; fitted := fitted s;
      calls := calls s ++ [(user_id, row, n)] |}).

Definition ex_get_artist_name_from_id : loc -> Z -> M Z spy (value Z) :=
  get_artist_name_from_id id.
Definition ex_load_artists : loc -> string -> M Z spy unit :=
  load_artists ex_read_csv.
Definition ex_recommend : loc -> Z -> loc -> Z -> M Z spy (list (value Z) * list Z) :=
  recommend id spy_recommend.

(** The script, run from the empty heap with a model that will answer
    [answer]. *)
Definition ex_main (answer : result (list Z * list Z))
  : result (list (value Z) * list Z) * heap Z spy :=
  main Z.add id Z_of_string ex_order ex_read_csv spy_fit spy_recommend spy_fit_object
       "user_artists.dat" "artists.dat" (mkSpy answer false []) ∅.

(** The directory table after [load_artists] on "artists.dat". *)
Definition ex_directory : DataFrame Z :=
  {| index := [IntCol [1; 2]]; columns := delete "id" (columns ex_artists) |}.

(** The matrix of "user_artists.dat" and its rows 3 and 10. *)
Definition ex_matrix : csr_matrix Z :=
  {| shape := (11, 3);
     rows := [[]; []; []; [(1, 8)]; []; []; []; []; []; []; [(2, 7)]] |}.
Definition ex_row_3 : csr_matrix Z := {| shape := (1, 3); rows := [[(1, 8)]] |}.
Definition ex_row_10 : csr_matrix Z := {| shape := (1, 3); rows := [[(2, 7)]] |}.

(** The matrix of "scenario.dat". *)
Definition ex_small_matrix : csr_matrix Z :=
  {| shape := (2, 11); rows := [[]; [(10, 8)]] |}.

(** The heap the script has built when it calls [recommend]: matrix at
    1, directory at 2, model at 3, facade at 4. *)
Definition ex_heap (answer : result (list Z * list Z)) : heap Z spy :=
  <[4%positive := ImplicitRecommenderObj 2%positive 3%positive]>
  (<[3%positive := ModelObj (mkSpy answer true [])]>
  (<[2%positive := ArtistRetrieverObj (Some ex_directory)]>
  (<[1%positive := MatrixObj ex_matrix]> ∅))).

(** The calls a model object has received. *)
Definition calls_of (o : option (object Z spy)) : list (Z * csr_matrix Z * Z) :=
  match o with
  | Some (ModelObj s) => calls s
  | _ => []
  end.

(** More files: a header without rows, a negative id, a directory with a
    repeated id, one without names and a second directory. *)
Definition ex_no_rows : DataFrame Z :=
  ex_table [("userID", ObjCol []); ("artistID", ObjCol []); ("weight", ObjCol [])].
Definition ex_negative : DataFrame Z :=
  ex_table [("userID", IntCol [1; -1]); ("artistID", IntCol [10; 3]);
            ("weight", IntCol [5; 7])].
Definition ex_repeated : DataFrame Z :=
  ex_table [("id", IntCol [1; 2; 1]); ("name", ObjCol ["A"; "B"; "C"])].
Definition ex_no_name : DataFrame Z :=
  ex_table [("id", IntCol [1; 2])].
Definition ex_artists_2 : DataFrame Z :=
  ex_table [("id", IntCol [2; 3]); ("name", ObjCol ["X"; "Y"])].

Definition ex_read_csv_more (path : string) : result (DataFrame Z) :=
  if String.eqb path "no_rows.dat" then Ok ex_no_rows
  else if String.eqb path "negative.dat" then Ok ex_negative
  else if String.eqb path "repeated.dat" then Ok ex_repeated
  else if String.eqb path "no_name.dat" then Ok ex_no_name
  else if String.eqb path "artists_2.dat" then Ok ex_artists_2
  else ex_read_csv path.

(** A heap with one directory that has not been loaded. *)
Definition ex_new_directory : heap Z spy :=
  <[1%positive := ArtistRetrieverObj None]> ∅.

Definition ex_load_user_artists_more : string -> result (csr_matrix Z) :=
  load_user_artists Z.add id Z_of_string ex_order ex_read_csv_more.
Definition ex_load_artists_more : loc -> string -> M Z spy unit :=
  load_artists ex_read_csv_more.
Definition ex_fit : loc -> loc -> M Z spy unit := fit spy_fit spy_fit_object.

(** The directory table after [load_artists] on "repeated.dat". *)
Definition ex_repeated_directory : DataFrame Z :=
  {| index := [IntCol [1; 2; 1]]; columns := delete "id" (columns ex_repeated) |}.

(** The heap of the script with a directory that was not loaded. *)
Definition ex_heap_unloaded (answer : result (list Z * list Z)) : heap Z spy :=
  <[2%positive := ArtistRetrieverObj None]> (ex_heap answer).

(** The two scripts on files of choice. *)
Definition ex_script (user_artists_file artists_file : string)
    (answer : result (list Z * list Z))
  : result (list (value Z) * list Z) * heap Z spy :=
  main Z.add id Z_of_string ex_order ex_read_csv_more spy_fit spy_recommend
       spy_fit_object
       user_artists_file artists_file (mkSpy answer false []) ∅.
Definition ex_MR_script (user_artists_file artists_file : string)
  : result (csr_matrix Z * value Z) * heap Z spy :=
  MR_main Z.add id Z_of_string ex_order ex_read_csv_more user_artists_file artists_file ∅.

(** ** Weights as 64-bit floats

    The weights of the program itself: binary64 numbers with the
    addition of the machine. *)

Abbreviation float := PrimFloat.float.

(** [float(z)] for an integer [z] of 64 bits. *)
Definition float_of_Z (z : Z) : float :=
  if z <? 0 then PrimFloat.opp (PrimFloat.of_uint63 (Uint63.of_Z (- z)))
  else PrimFloat.of_uint63 (Uint63.of_Z z).

(** Stand-in for [float(str)]: decimal integer literals only. *)
Definition float_of_string (s : string) : option float :=
  float_of_Z <$> Z_of_string s.

(** Three files: the scenario of the written specification;
    "large.dat", in which one pair occurs three times, with the integer
    weights 10^16, 1 and 1; and "rounding.dat", in which the pair (0, 1)
    occurs twice with weight 1.0, around a row of weight 2^53 for the
    pair (0, 0). *)
Definition ex_scenario_float : DataFrame float :=
  {| index := [];
     columns := list_to_map
       [("userID", IntCol [1; 1]); ("artistID", IntCol [10; 10]);
        ("weight", IntCol [5; 3])] |}.
Definition ex_large : DataFrame float :=
  {| index := [];
     columns := list_to_map
       [("userID", IntCol [1; 1; 1]); ("artistID", IntCol [10; 10; 10]);
        ("weight", IntCol [10000000000000000; 1; 1])] |}.
Definition ex_rounding : DataFrame float :=
  {| index := [];
     columns := list_to_map
       [("userID", IntCol [0; 0; 0]); ("artistID", IntCol [1; 0; 1]);
        ("weight", FloatCol [float_of_Z 1; float_of_Z 9007199254740992;
                             float_of_Z 1])] |}.

Definition float_read_csv (path : string) : result (DataFrame float) :=
  if String.eqb path "scenario.dat" then Ok ex_scenario_float
  else if String.eqb path "large.dat" then Ok ex_large
  else if String.eqb path "rounding.dat" then Ok ex_rounding
  else Raise FileNotFoundError.

(** The order of the file: the one in which the library adds up the
    three rows of "large.dat", which share their row and column. *)
Definition file_order : coo_order float :=
  {| reorder := fun ts => ts; reorder_perm := fun ts => Permutation_refl ts |}.

Definition float_load_user_artists (order : coo_order float)
  : string -> result (csr_matrix float) :=
  load_user_artists PrimFloat.add float_of_Z float_of_string order float_read_csv.

(** The matrices of "large.dat" and of "rounding.dat". *)
Definition ex_large_matrix : csr_matrix float :=
  {| shape := (2, 11); rows := [[]; [(10, float_of_Z 10000000000000000)]] |}.
Definition ex_rounding_matrix : csr_matrix float :=
  {| shape := (1, 2);
     rows := [[(0, float_of_Z 9007199254740992); (1, float_of_Z 2)]] |}.

(** * Properties *)

(** ** Results *)

Lemma result_map_Raise {A B} (f : A -> result B) (e : exn) (xs : list A) :
  Forall (fun x => is_Ok (f x) = true ∨ f x = Raise e) xs ->
  Exists (fun x => f x = Raise e) xs ->
  result_map f xs = Raise e.
Proof.
  induction 1 as [|x xs Hx Hxs IH]; intros Hex; [by inversion Hex|].
  simpl. destruct Hx as [Hx|Hx].
  - destruct (f x) as [y|] eqn:E; [|done]. simpl.
    inversion Hex as [?? Hbad|?? Hbad]; subst; [congruence|].
    by rewrite (IH Hbad).
  - by rewrite Hx.
Qed.

Lemma result_map_length {A B} (f : A -> result B) (xs : list A) (ys : list B) :
  result_map f xs = Ok ys -> length ys = length xs.
Proof.
  revert ys. induction xs as [|x xs IH]; intros ys; simpl.
  - by intros [= <-].
  - destruct (f x); [|done]. simpl.
    destruct (result_map f xs) as [ys'|]; [|done]. simpl.
    intros [= <-]. simpl. by rewrite (IH ys').
Qed.

Lemma norm_index_in_range (k n : Z) : 0 <= k < n -> norm_index k n = Ok k.
Proof.
  intros Hk. unfold norm_index.
  destruct (k <? - n) eqn:E1; [lia|].
  destruct (n <=? k) eqn:E2; [lia|]. simpl.
  destruct (k <? 0) eqn:E3; [lia|done].
Qed.

Lemma list_max_ge (xs : list Z) : Forall (fun x => x <= list_max xs) xs.
Proof.
  assert (Hfold : forall ys a, a <= foldl Z.max a ys ∧
                               Forall (fun x => x <= foldl Z.max a ys) ys).
  { induction ys as [|y ys IH]; intros a; simpl; [split; [lia|constructor]|].
    destruct (IH (Z.max a y)) as [H1 H2]. split; [lia|].
    constructor; [lia|done]. }
  destruct xs as [|x xs]; [constructor|]. simpl.
  destruct (Hfold xs x). by constructor.
Qed.


Lemma list_min_le (xs : list Z) : Forall (fun x => list_min xs <= x) xs.
Proof.
  assert (Hfold : forall ys a, foldl Z.min a ys <= a ∧
                               Forall (fun x => foldl Z.min a ys <= x) ys).
  { induction ys as [|y ys IH]; intros a; simpl; [split; [lia|constructor]|].
    destruct (IH (Z.min a y)) as [H1 H2]. split; [lia|].
    constructor; [lia|done]. }
  destruct xs as [|x xs]; [constructor|]. simpl.
  destruct (Hfold xs x). by constructor.
Qed.

Section Properties.

(** Unfolding of the program's definitions, by name. *)
Ltac unfold_load_user_artists := unfold load_user_artists.
Ltac unfold_wsum := unfold wsum.
Ltac unfold_row_sum := unfold row_sum, wsum.
Ltac unfold_csr_add := unfold csr_add, wsum.
Ltac unfold_csr_sum := unfold csr_sum.
Ltac unfold_interaction_matrix := unfold interaction_matrix, tocsr, triples.
Ltac unfold_getitem := unfold getitem.
Ltac unfold_loc_getitem := unfold loc_getitem.
Ltac unfold_recommend := unfold recommend, call_model.
Ltac unfold_M :=
  unfold get_artist_name_from_id, load_artists, call_model;
  unfold get__artists_df, is_ArtistRetriever, get_artist_retriever,
    get_implicit_model, get_model_state, get_matrix,
    ArtistRetriever_init, ImplicitRecommender_init, alloc,
    bind, read, write, ret, raise, lift.

Context {W : Type} `{!EqDecision W}.
Variables (w0 : W) (wadd : W -> W -> W) (W_of_Z : Z -> W).
Variable float_of_string : string -> option W.
Variable order : coo_order W.
Variable read_csv : string -> result (DataFrame W).

Local Abbreviation wsum := (wsum w0 wadd).
Local Abbreviation row_add := (row_add wadd).
Local Abbreviation row_get := (row_get w0).
Local Abbreviation row_sum := (row_sum w0 wadd).
Local Abbreviation csr_add := (csr_add wadd).
Local Abbreviation tocsr := (tocsr wadd order).
Local Abbreviation getitem := (getitem w0).
Local Abbreviation csr_sum := (csr_sum w0 wadd).
Local Abbreviation astype_float := (astype_float W_of_Z float_of_string).
Local Abbreviation load_user_artists :=
  (load_user_artists wadd W_of_Z float_of_string order read_csv).
Local Abbreviation loc_getitem := (loc_getitem W_of_Z).

(** ** Rows in canonical format *)

Lemma row_add_above (b j : Z) (w : W) (r : list (Z * W)) :
  b < j -> Forall (fun e => b < e.1) r -> Forall (fun e => b < e.1) (row_add j w r).
Proof.
  intros Hb. induction 1 as [|[k v] r Hk Hr IH]; simpl.
  - by repeat constructor.
  - destruct (j <? k); [by repeat constructor|].
    destruct (j =? k); by constructor.
Qed.

Lemma row_add_sorted (j : Z) (w : W) (r : list (Z * W)) :
  row_sorted r -> row_sorted (row_add j w r).
Proof.
  unfold row_sorted. induction 1 as [|[k v] r Hr IH Hk]; simpl.
  - by repeat constructor.
  - destruct (j <? k) eqn:E1.
    + constructor; [by constructor|].
      constructor; [simpl; lia|].
      eapply Forall_impl; [exact Hk|]. simpl. lia.
    + destruct (j =? k) eqn:E2; [by constructor|].
      constructor; [done|]. apply (row_add_above k); [lia|done].
Qed.

Lemma csr_add_length (m : list (list (Z * W))) (t : Z * Z * W) :
  length (csr_add m t) = length m.
Proof. destruct t as [[i j] w]. apply length_alter. Qed.

Lemma csr_add_sorted (m : list (list (Z * W))) (t : Z * Z * W) :
  Forall row_sorted m -> Forall row_sorted (csr_add m t).
Proof.
  destruct t as [[i j] w]. intros Hm. simpl.
  apply Forall_alter; [done|]. intros r _ Hr. by apply row_add_sorted.
Qed.


Local Abbreviation interaction_matrix := (interaction_matrix wadd order).
Local Abbreviation interactions_table := (interactions_table W_of_Z float_of_string).

(** ** The loader on a well-formed table, and only there *)


Lemma load_user_artists_Ok_inv path M :
  load_user_artists path = Ok M ->
  exists df users items weights,
    read_csv path = Ok df /\ interactions_table df users items weights /\
    M = interaction_matrix users items weights.
Proof.
  unfold_load_user_artists.
  destruct (read_csv path) as [df|] eqn:Hread; [|done]. simpl.
  unfold set_index. simpl.
  destruct (columns df !! "userID") as [cu|] eqn:Hu; [|done]. simpl.
  destruct (columns df !! "artistID") as [ci|] eqn:Hi; [|done]. simpl.
  unfold getattr_column. simpl. rewrite !lookup_delete_ne by done.
  destruct (columns df !! "weight") as [cw|] eqn:Hw; [|done]. simpl.
  destruct (astype_float cw) as [ws|] eqn:Hws; [|done]. simpl.
  unfold coo_matrix_init. case_bool_decide as Hlen0; [done|].
  destruct cu as [users| |]; try done. destruct ci as [items| |]; try done.
  simpl. case_bool_decide as Hlen; [|done]. destruct Hlen as [Hlu Hli].
  destruct (list_min users <? 0) eqn:E1; [done|].
  destruct (list_min items <? 0) eqn:E2; [done|]. simpl.
  intros [= <-]. exists df, users, items, ws. split; [done|]. split; [|done].
  split; try done.
  - by exists cw.
  - intros ->. apply Hlen0. left. done.
  - eapply Forall_impl; [apply list_min_le|]. simpl. lia.
  - eapply Forall_impl; [apply list_min_le|]. simpl. lia.
Qed.

Lemma Forall_zip3_fst (P : Z -> Prop) (users items : list Z) (weights : list W) :
  Forall P users -> Forall (fun t => P t.1.1) (zip (zip users items) weights).
Proof.
  intros Hus. revert items weights.
  induction Hus as [|u users Hu _ IH]; intros [|i items] [|w weights];
    simpl; constructor; auto.
Qed.

Lemma triples_in_range (users items : list Z) (weights : list W) :
  Forall (fun u => 0 <= u) users ->
  Forall (fun t => 0 <= t.1.1 <
            Z.of_nat (length (replicate (Z.to_nat (list_max users + 1)) ([] : list (Z * W)))))
         (zip (zip users items) weights).
Proof.
  intros Hnn. rewrite length_replicate.
  apply (Forall_zip3_fst (fun u => 0 <= u < Z.of_nat (Z.to_nat (list_max users + 1)))).
  pose proof (list_max_ge users) as Hmax.
  rewrite Forall_forall in *. intros u Hu.
  specialize (Hnn u Hu). specialize (Hmax u Hu). simpl in *. lia.
Qed.

Lemma reordered_in_range (users items : list Z) (weights : list W) :
  Forall (fun u => 0 <= u) users ->
  Forall (fun t => 0 <= t.1.1 <
            Z.of_nat (length (replicate (Z.to_nat (list_max users + 1)) ([] : list (Z * W)))))
         (reorder order (zip (zip users items) weights)).
Proof.
  intros Hnn. eapply Permutation_Forall; [|by apply triples_in_range].
  symmetry. apply reorder_perm.
Qed.

Lemma replicate_nil_sorted (n : nat) :
  Forall row_sorted (replicate n ([] : list (Z * W))).
Proof. apply Forall_replicate. constructor. Qed.

(** Stored coordinates: every triple leaves an entry at its own row and
    column. *)
Lemma row_add_keys (j k : Z) (w : W) (r : list (Z * W)) :
  k ∈ (row_add j w r).*1 <-> k = j \/ k ∈ r.*1.
Proof.
  induction r as [|[k' v] r IH]; csimpl.
  - rewrite list_elem_of_singleton, elem_of_nil. tauto.
  - destruct (j <? k') eqn:E1; csimpl; [by rewrite (elem_of_cons _ k j)|].
    destruct (j =? k') eqn:E2; csimpl.
    + assert (j = k') as -> by lia. rewrite !elem_of_cons. tauto.
    + rewrite !elem_of_cons, IH. tauto.
Qed.

Lemma csr_add_keys_mono (m : list (list (Z * W))) (t : Z * Z * W) (p : nat) (k : Z) r :
  m !! p = Some r -> k ∈ r.*1 ->
  exists r', csr_add m t !! p = Some r' /\ k ∈ r'.*1.
Proof.
  destruct t as [[i j] w]. intros Hr Hk. simpl.
  rewrite list_lookup_alter. case_decide as Heq.
  - subst p. rewrite Hr. simpl. eexists; split; [done|].
    apply row_add_keys. right. done.
  - by exists r.
Qed.

Lemma foldl_csr_add_keys_mono (ts : list (Z * Z * W)) (m : list (list (Z * W)))
    (p : nat) (k : Z) r :
  m !! p = Some r -> k ∈ r.*1 ->
  exists r', foldl csr_add m ts !! p = Some r' /\ k ∈ r'.*1.
Proof.
  revert m r. induction ts as [|t ts IH]; intros m r Hr Hk; [by exists r|].
  destruct (csr_add_keys_mono m t p k r Hr Hk) as (r' & Hr' & Hk').
  simpl. by apply (IH _ r').
Qed.

Lemma foldl_csr_add_keys (ts : list (Z * Z * W)) (m : list (list (Z * W))) :
  Forall (fun t => 0 <= t.1.1 < Z.of_nat (length m)) ts ->
  Forall (fun t => exists r, foldl csr_add m ts !! Z.to_nat t.1.1 = Some r /\ t.1.2 ∈ r.*1) ts.
Proof.
  revert m. induction ts as [|[[u i] w] ts IH]; intros m Hts; [constructor|].
  inversion Hts as [|?? Ht Hts']; subst. simpl in Ht. constructor.
  - simpl. destruct (lookup_lt_is_Some_2 m (Z.to_nat u)) as [r Hr]; [lia|].
    apply (foldl_csr_add_keys_mono ts _ (Z.to_nat u) i (row_add i w r)).
    + by rewrite list_lookup_alter_eq, Hr.
    + apply row_add_keys. left. done.
  - change (foldl csr_add m ((u, i, w) :: ts))
      with (foldl csr_add (csr_add m (u, i, w)) ts).
    apply IH. by rewrite csr_add_length.
Qed.

Lemma list_max_elem (xs : list Z) : xs <> [] -> list_max xs ∈ xs.
Proof.
  assert (Hfold : forall ys a, foldl Z.max a ys = a \/ foldl Z.max a ys ∈ ys).
  { induction ys as [|y ys IH]; intros a; simpl; [left; done|].
    destruct (IH (Z.max a y)) as [H|H].
    - rewrite H. destruct (Z.max_spec a y) as [[_ ->]|[_ ->]]; [right; left|left; done].
    - right. right. done. }
  destruct xs as [|x xs]; [done|]. intros _. simpl.
  destruct (Hfold xs x) as [->|H]; [left|right; done].
Qed.

(** C6 (matrix dimensions).  Whenever the loader returns a matrix, the
    file held a non-empty table of non-negative integer ids, the shape of
    the matrix is (largest userID + 1, largest artistID + 1), it stores
    one row per index below the first dimension, and every file row
    (u, i, w) left a stored entry in row [u] at column [i]: ids are the
    coordinates themselves. *)
Theorem load_user_artists_shape path M :
  load_user_artists path = Ok M ->
  exists df users items weights,
    read_csv path = Ok df /\ interactions_table df users items weights /\
    list_max users ∈ users /\ list_max items ∈ items /\
    shape M = (list_max users + 1, list_max items + 1) /\
    length (rows M) = Z.to_nat (list_max users + 1) /\
    Forall (fun t => exists r, rows M !! Z.to_nat t.1.1 = Some r /\ t.1.2 ∈ r.*1)
           (zip (zip users items) weights).
Proof.
  intros (df & users & items & weights & Hread & Hdf & ->)%load_user_artists_Ok_inv.
  exists df, users, items, weights. do 2 (split; [done|]).
  destruct Hdf as [_ _ _ Hlu Hli Hne Hnu _].
  split; [by apply list_max_elem|].
  split; [apply list_max_elem; intros ->; destruct users; [done|simpl in *; lia]|].
  split; [done|]. simpl. split.
  - assert (Hlen : forall ts (m : list (list (Z * W))),
              length (foldl csr_add m ts) = length m).
    { induction ts as [|t ts IH]; intros m; simpl; [done|].
      by rewrite IH, csr_add_length. }
    by rewrite Hlen, length_replicate.
  - eapply Permutation_Forall; [apply (reorder_perm order)|].
    apply foldl_csr_add_keys. by apply reordered_in_range.
Qed.

(** C7, as amended (failures of the loader on a malformed table).  With
    [userID] or [artistID] missing the loader raises KeyError; with both
    present and [weight] missing it raises AttributeError; with all three
    present and a [weight] column of text, one of whose cells does not
    convert to a float, it raises ValueError.  No matrix is returned. *)
Theorem load_user_artists_malformed path df :
  read_csv path = Ok df ->
  (columns df !! "userID" = None \/ columns df !! "artistID" = None ->
     load_user_artists path = Raise KeyError) /\
  (is_Some (columns df !! "userID") -> is_Some (columns df !! "artistID") ->
     (columns df !! "weight" = None ->
        load_user_artists path = Raise AttributeError) /\
     (forall xs, columns df !! "weight" = Some (ObjCol xs) ->
        Exists (fun s => float_of_string s = None) xs ->
        load_user_artists path = Raise ValueError)).
Proof.
  intros Hread. unfold_load_user_artists. rewrite Hread. simpl.
  unfold set_index. simpl. split.
  - intros [Hu|Hi].
    + by rewrite Hu.
    + rewrite Hi. by destruct (columns df !! "userID").
  - intros [cu Hu] [ci Hi]. rewrite Hu, Hi. simpl.
    unfold getattr_column. simpl. rewrite !lookup_delete_ne by done. split.
    + by intros ->.
    + intros xs -> Hbad. simpl.
      rewrite (result_map_Raise _ ValueError); [done| |].
      * apply Forall_forall. intros s _. destruct (float_of_string s); [left|right]; done.
      * eapply Exists_impl; [exact Hbad|]. simpl. by intros s ->.
Qed.

(** ** Entries of the matrix: accumulation of duplicates *)

Local Abbreviation wsum_left := (wsum_left w0 wadd).
Local Abbreviation accumulate := (accumulate wadd).

Lemma row_get_lookup (j : Z) (r : list (Z * W)) :
  row_get j r = default w0 (row_lookup j r).
Proof. induction r as [|[k v] r IH]; simpl; [done|]. by destruct (j =? k). Qed.

Lemma row_lookup_above (j : Z) (r : list (Z * W)) :
  Forall (fun e => j < e.1) r -> row_lookup j r = None.
Proof.
  induction 1 as [|[k v] r Hk _ IH]; simpl; [done|].
  simpl in Hk. destruct (j =? k) eqn:E; [lia|done].
Qed.

Lemma row_lookup_add (j j' : Z) (w : W) (r : list (Z * W)) :
  row_sorted r ->
  row_lookup j' (row_add j w r) =
    if j' =? j then accumulate (row_lookup j r) w else row_lookup j' r.
Proof.
  unfold row_sorted. induction 1 as [|[k v] r Hr IH Hk]; simpl.
  - by destruct (j' =? j).
  - destruct (j <? k) eqn:E1; simpl.
    + destruct (j' =? j) eqn:E2; [|done].
      destruct (j =? k) eqn:E3; [lia|].
      rewrite row_lookup_above; [done|].
      eapply Forall_impl; [exact Hk|]. simpl. lia.
    + destruct (j =? k) eqn:E2; simpl.
      * destruct (j' =? k) eqn:E3; destruct (j' =? j) eqn:E4; try lia; done.
      * destruct (j' =? k) eqn:E3.
        -- destruct (j' =? j) eqn:E4; [lia|done].
        -- apply IH.
Qed.

Lemma csr_add_lookup (m : list (list (Z * W))) (u i u' i' : Z) (w : W) :
  Forall row_sorted m -> 0 <= u < Z.of_nat (length m) -> 0 <= u' ->
  row_lookup i' (default [] (csr_add m (u, i, w) !! Z.to_nat u')) =
    if bool_decide ((u, i) = (u', i'))
    then accumulate (row_lookup i' (default [] (m !! Z.to_nat u'))) w
    else row_lookup i' (default [] (m !! Z.to_nat u')).
Proof.
  intros Hm Hu Hu'. simpl.
  destruct (decide (u = u')) as [->|Hne].
  - destruct (lookup_lt_is_Some_2 m (Z.to_nat u')) as [r Hr]; [lia|].
    rewrite list_lookup_alter_eq, Hr. simpl.
    rewrite row_lookup_add by (eapply Forall_lookup_1; eauto).
    case_bool_decide as Heq.
    + injection Heq as ->. by rewrite Z.eqb_refl.
    + destruct (i' =? i) eqn:E; [|done]. exfalso. apply Heq. f_equal. lia.
  - rewrite list_lookup_alter_ne by lia.
    rewrite bool_decide_eq_false_2; [done|]. congruence.
Qed.

Lemma foldl_csr_add_lookup (ts : list (Z * Z * W)) (m : list (list (Z * W))) (u i : Z) :
  Forall row_sorted m ->
  Forall (fun t => 0 <= t.1.1 < Z.of_nat (length m)) ts -> 0 <= u ->
  row_lookup i (default [] (foldl csr_add m ts !! Z.to_nat u)) =
    foldl accumulate (row_lookup i (default [] (m !! Z.to_nat u))) (weights_at u i ts).
Proof.
  intros Hm Hts Hu. revert m Hm Hts.
  induction ts as [|[[u1 i1] w1] ts IH]; intros m Hm Hts; [done|].
  inversion Hts as [|?? Ht Hts']; subst. simpl in Ht.
  change (foldl csr_add m ((u1, i1, w1) :: ts))
    with (foldl csr_add (csr_add m (u1, i1, w1)) ts).
  rewrite IH.
  - rewrite csr_add_lookup by done.
    unfold weights_at. rewrite filter_cons. simpl.
    case_bool_decide as Heq; case_decide as Heq'; done.
  - by apply csr_add_sorted.
  - by rewrite csr_add_length.
Qed.

Lemma foldl_accumulate_None (ws : list W) :
  default w0 (foldl accumulate None ws) = wsum_left ws.
Proof.
  destruct ws as [|w ws]; [done|]. simpl.
  generalize w. induction ws as [|w' ws IH]; intros v; [done|]. apply IH.
Qed.

(** ** Sums without rounding *)

Lemma zsum_nonneg (zs : list Z) : Forall (fun z => 0 <= z) zs -> 0 <= zsum zs.
Proof. unfold zsum. induction 1; simpl; lia. Qed.

Lemma zsum_cons (z : Z) (zs : list Z) : zsum (z :: zs) = z + zsum zs.
Proof. done. Qed.

Lemma zsum_app (xs ys : list Z) : zsum (xs ++ ys) = zsum xs + zsum ys.
Proof. unfold zsum. induction xs; simpl; lia. Qed.

Lemma zsum_Permutation (xs ys : list Z) : xs ≡ₚ ys -> zsum xs = zsum ys.
Proof. unfold zsum. induction 1; simpl; lia. Qed.

Section Exact.

Variables (val : W -> Z) (B : Z).
Hypothesis Hexact : exact_add w0 wadd val B.

Local Abbreviation summable := (summable val B).
Local Abbreviation total ws := (zsum (val <$> ws)).
Local Abbreviation stored m := (concat ((fun r : list (Z * W) => snd <$> r) <$> m)).

Lemma total_nonneg (ws : list W) : Forall (fun w => 0 <= val w) ws -> 0 <= total ws.
Proof. intros Hws. apply zsum_nonneg. by rewrite Forall_fmap. Qed.

Lemma total_cons (w : W) (ws : list W) : total (w :: ws) = val w + total ws.
Proof. done. Qed.

Lemma total_app (xs ys : list W) : total (xs ++ ys) = total xs + total ys.
Proof. by rewrite fmap_app, zsum_app. Qed.

Lemma summable_Permutation (ws ws' : list W) : ws ≡ₚ ws' -> summable ws -> summable ws'.
Proof.
  intros Hp [Hnn Hle]. split.
  - eapply Permutation_Forall; [exact Hp|done].
  - by rewrite <- (zsum_Permutation _ _ (fmap_Permutation val _ _ Hp)).
Qed.

Lemma total_filter {A} (P : A -> Prop) `{!forall x, Decision (P x)}
    (f : A -> W) (xs : list A) :
  Forall (fun w => 0 <= val w) (f <$> xs) ->
  Forall (fun w => 0 <= val w) (f <$> filter P xs) /\
  total (f <$> filter P xs) <= total (f <$> xs).
Proof.
  induction xs as [|x xs IH]; [done|].
  rewrite fmap_cons. intros Hnn. inversion Hnn as [|?? Hx Hxs]; subst.
  destruct (IH Hxs) as [Hnn' Hle']. rewrite total_cons.
  rewrite filter_cons. destruct (decide (P x)); [|split; [done|lia]].
  rewrite fmap_cons, total_cons. split; [by constructor|lia].
Qed.

Lemma summable_filter {A} (P : A -> Prop) `{!forall x, Decision (P x)}
    (f : A -> W) (xs : list A) :
  summable (f <$> xs) -> summable (f <$> filter P xs).
Proof.
  intros [Hnn Hle]. destruct (total_filter P f xs Hnn) as [Hnn' Hle'].
  split; [done|lia].
Qed.

Lemma wsum_val (ws : list W) : summable ws -> val (wsum ws) = total ws.
Proof.
  intros [Hnn Hle]. revert Hle. unfold_wsum.
  induction Hnn as [|w ws Hw Hws IH]; csimpl; intros Hle.
  - apply (exact_zero _ _ _ _ Hexact).
  - pose proof (total_nonneg _ Hws).
    rewrite (exact_sum _ _ _ _ Hexact); rewrite ?IH; lia.
Qed.

Lemma foldl_wadd_val (ws : list W) (a : W) :
  0 <= val a -> Forall (fun w => 0 <= val w) ws -> val a + total ws <= B ->
  val (foldl wadd a ws) = val a + total ws.
Proof.
  intros Ha Hnn. revert a Ha.
  induction Hnn as [|w ws Hw Hws IH]; csimpl; intros a Ha Hle.
  { unfold zsum. simpl. lia. }
  pose proof (total_nonneg _ Hws).
  assert (val (wadd a w) = val a + val w) as Haw
    by (apply (exact_sum _ _ _ _ Hexact); lia).
  rewrite IH; lia.
Qed.

Lemma wsum_left_val (ws : list W) : summable ws -> val (wsum_left ws) = total ws.
Proof.
  intros [Hnn Hle]. destruct ws as [|w ws]; simpl.
  - apply (exact_zero _ _ _ _ Hexact).
  - inversion Hnn; subst. by apply foldl_wadd_val.
Qed.

(** Adding a weight to a row, to a matrix, and a list of triples to a
    matrix: the readings of the stored entries add up to those of the
    weights added. *)
Lemma row_add_total (j : Z) (w : W) (r : list (Z * W)) :
  summable (w :: (snd <$> r)) ->
  Forall (fun x => 0 <= val x) (snd <$> row_add j w r) /\
  total (snd <$> row_add j w r) = val w + total (snd <$> r).
Proof.
  intros [Hnn Hle]. inversion Hnn as [|?? Hw Hr]; subst. clear Hnn.
  csimpl in Hle. revert Hr Hle.
  induction r as [|[k v] r IH]; csimpl; intros Hr Hle.
  - split; [by repeat constructor|done].
  - inversion Hr as [|?? Hv Hr']; subst.
    pose proof (total_nonneg _ Hr').
    destruct (j <? k); csimpl.
    { split; [by repeat constructor|lia]. }
    destruct (j =? k); csimpl.
    { assert (val (wadd v w) = val v + val w) as Hvw
        by (apply (exact_sum _ _ _ _ Hexact); lia).
      split; [constructor; [lia|done]|lia]. }
    destruct IH as [IH1 IH2]; [done|lia|].
    split; [by constructor|lia].
Qed.

Lemma csr_add_total (m : list (list (Z * W))) (u i : Z) (w : W) :
  (Z.to_nat u < length m)%nat -> summable (w :: stored m) ->
  Forall (fun x => 0 <= val x) (stored (csr_add m (u, i, w))) /\
  total (stored (csr_add m (u, i, w))) = val w + total (stored m).
Proof.
  unfold_csr_add. generalize (Z.to_nat u) as p. clear u.
  induction m as [|r m IH]; intros p Hp [Hnn Hle]; [simpl in Hp; lia|].
  csimpl in *. apply Forall_cons in Hnn as [Hw Hm].
  apply Forall_app in Hm as [Hr Hm]. rewrite total_app in Hle.
  pose proof (total_nonneg _ Hr). pose proof (total_nonneg _ Hm).
  destruct p as [|p]; csimpl.
  - destruct (row_add_total i w r) as [H1 H2].
    { split; [by constructor|]. csimpl. lia. }
    rewrite !total_app, H2.
    split; [by apply Forall_app|lia].
  - destruct (IH p) as [H1 H2]; [lia| |].
    { split; [by constructor|]. csimpl. lia. }
    rewrite !total_app, H2.
    split; [by apply Forall_app|lia].
Qed.

Lemma foldl_csr_add_total (ts : list (Z * Z * W)) (m : list (list (Z * W))) :
  Forall (fun t => 0 <= t.1.1 < Z.of_nat (length m)) ts ->
  summable (stored m ++ (snd <$> ts)) ->
  Forall (fun x => 0 <= val x) (stored (foldl csr_add m ts)) /\
  total (stored (foldl csr_add m ts)) = total (stored m) + total (snd <$> ts).
Proof.
  revert m. induction ts as [|[[u i] w] ts IH]; intros m Hts [Hnn Hle].
  - csimpl in *. rewrite app_nil_r in Hnn. split; [done|]. lia.
  - apply Forall_cons in Hts as [Ht Hts']. simpl in Ht.
    csimpl in Hnn. csimpl in Hle. rewrite total_app in Hle. csimpl in Hle.
    apply Forall_app in Hnn as [Hm Hws]. apply Forall_cons in Hws as [Hw Hws'].
    pose proof (total_nonneg _ Hm). pose proof (total_nonneg _ Hws').
    destruct (csr_add_total m u i w) as [H1 H2]; [lia| |].
    { split; [by constructor|]. csimpl. lia. }
    change (foldl csr_add m ((u, i, w) :: ts))
      with (foldl csr_add (csr_add m (u, i, w)) ts).
    destruct (IH (csr_add m (u, i, w))) as [H3 H4].
    + by rewrite csr_add_length.
    + split; [by apply Forall_app|]. rewrite total_app, H2. lia.
    + split; [done|]. rewrite H4, H2. csimpl. lia.
Qed.

Lemma csr_sum_val (m : list (list (Z * W))) :
  summable (stored m) -> val (wsum (row_sum <$> m)) = total (stored m).
Proof.
  intros [Hnn Hle]. revert Hnn Hle.
  induction m as [|r m IH]; csimpl; intros Hnn Hle.
  - apply (exact_zero _ _ _ _ Hexact).
  - apply Forall_app in Hnn as [Hr Hm]. rewrite total_app in *.
    pose proof (total_nonneg _ Hr). pose proof (total_nonneg _ Hm).
    change (foldr wadd w0 (row_sum <$> m)) with (wsum (row_sum <$> m)).
    assert (val (row_sum r) = total (snd <$> r)) as Hrow.
    { apply wsum_val. split; [done|lia]. }
    specialize (IH Hm ltac:(lia)).
    rewrite (exact_sum _ _ _ _ Hexact); lia.
Qed.

Lemma stored_replicate (n : nat) : stored (replicate n []) = [].
Proof. induction n as [|n IH]; [done|]. csimpl. exact IH. Qed.

Lemma interaction_matrix_total (users items : list Z) (weights : list W) :
  length users = length weights -> length items = length weights ->
  Forall (fun u => 0 <= u) users -> summable weights ->
  val (csr_sum (interaction_matrix users items weights)) = total weights.
Proof.
  intros Hlu Hli Hnu Hws.
  assert (snd <$> reorder order (zip (zip users items) weights) ≡ₚ weights) as Hp.
  { rewrite (fmap_Permutation snd _ _ (reorder_perm order _)).
    rewrite snd_zip; [done|]. rewrite length_zip_with. lia. }
  unfold_interaction_matrix; unfold_csr_sum. simpl.
  destruct (foldl_csr_add_total
              (reorder order (zip (zip users items) weights))
              (replicate (Z.to_nat (list_max users + 1)) [])) as [H1 H2].
  - by apply reordered_in_range.
  - rewrite stored_replicate. simpl.
    by apply (summable_Permutation weights).
  - rewrite stored_replicate in H2.
    rewrite (zsum_Permutation _ _ (fmap_Permutation val _ _ Hp)) in H2.
    change (zsum (val <$> [])) with 0 in H2.
    destruct Hws as [? ?].
    rewrite csr_sum_val; [by rewrite H2|]. split; [done|]. rewrite H2. lia.
Qed.

Lemma exact_eq (a b : W) (z : Z) : 0 <= z <= B -> val a = z -> val b = z -> a = b.
Proof. intros Hz Ha Hb. apply (exact_inj _ _ _ _ Hexact); lia. Qed.

End Exact.

Lemma interaction_matrix_entry (users items : list Z) (weights : list W) (u i : Z) :
  Forall (fun u => 0 <= u) users ->
  0 <= u < list_max users + 1 -> 0 <= i < list_max items + 1 ->
  getitem (interaction_matrix users items weights) u i =
    Ok (wsum_left (weights_at u i (reorder order (zip (zip users items) weights)))).
Proof.
  intros Hnu Hu Hi. unfold_interaction_matrix. unfold_getitem. simpl.
  rewrite !norm_index_in_range by done. simpl. f_equal.
  rewrite row_get_lookup, foldl_csr_add_lookup.
  - replace (row_lookup i (default [] (replicate _ _ !! _))) with (@None W).
    + apply foldl_accumulate_None.
    + destruct (replicate _ _ !! _) as [r|] eqn:Hr; simpl; [|done].
      by apply lookup_replicate in Hr as [-> _].
  - apply replicate_nil_sorted.
  - by apply reordered_in_range.
  - lia.
Qed.

Lemma weights_at_reorder (u i : Z) (ts : list (Z * Z * W)) :
  weights_at u i (reorder order ts) ≡ₚ weights_at u i ts.
Proof.
  unfold weights_at. apply fmap_Permutation, filter_Permutation, reorder_perm.
Qed.

(** C2, as amended (what the loaded matrix holds).  Whenever the loader
    returns a matrix [M], the file held a table with the three columns
    and at least one row, and at every coordinate [(u, i)] of [M] the
    entry [M[u, i]] is the sum of the weights of the file rows whose
    pair is [(u, i)], added one after another in an order the library
    chooses (zero if there is no such row): duplicates are summed, not
    overwritten.  When these additions are exact, as they are for
    weights that stand for non-negative integers of total at most [B],
    the entry is the sum of those weights in any order and the sum of
    all entries of [M] is the sum of the weight column. *)
Theorem load_user_artists_sums path M :
  load_user_artists path = Ok M ->
  exists df users items weights,
    read_csv path = Ok df /\ interactions_table df users items weights /\
    (forall u i, 0 <= u < (shape M).1 -> 0 <= i < (shape M).2 ->
       exists ws, ws ≡ₚ weights_at u i (zip (zip users items) weights) /\
                  getitem M u i = Ok (wsum_left ws)) /\
    (forall val B, exact_add w0 wadd val B -> summable val B weights ->
       (forall u i, 0 <= u < (shape M).1 -> 0 <= i < (shape M).2 ->
          getitem M u i = Ok (wsum (weights_at u i (zip (zip users items) weights)))) /\
       csr_sum M = wsum weights).
Proof.
  intros (df & users & items & weights & Hread & Hdf & ->)%load_user_artists_Ok_inv.
  exists df, users, items, weights. do 2 (split; [done|]).
  destruct Hdf as [_ _ _ Hlu Hli _ Hnu _]. split.
  - intros u i Hu Hi.
    exists (weights_at u i (reorder order (zip (zip users items) weights))).
    split; [apply weights_at_reorder|]. by apply interaction_matrix_entry.
  - intros val B Hexact Hws. split.
    + intros u i Hu Hi. rewrite interaction_matrix_entry by done. f_equal.
      assert (summable val B (weights_at u i (zip (zip users items) weights))) as Hat.
      { unfold weights_at. apply summable_filter.
        rewrite snd_zip; [done|]. rewrite length_zip_with. lia. }
      pose proof (weights_at_reorder u i (zip (zip users items) weights)) as Hp.
      apply (exact_eq val B Hexact _ _
               (zsum (val <$> weights_at u i (zip (zip users items) weights)))).
      * destruct Hat as [Hnn Hle]. split; [|done]. by apply total_nonneg.
      * rewrite (wsum_left_val val B Hexact).
        -- apply zsum_Permutation, fmap_Permutation, Hp.
        -- apply (summable_Permutation val B _ _ (symmetry Hp) Hat).
      * by apply (wsum_val val B).
    + apply (exact_eq val B Hexact _ _ (zsum (val <$> weights))).
      * destruct Hws as [Hnn Hle]. split; [|done]. by apply total_nonneg.
      * by apply (interaction_matrix_total val B).
      * by apply (wsum_val val B).
Qed.


(** ** Label lookup *)

Lemma positions_from_none {A} (f : A -> bool) (o : nat) (xs : list A) :
  Forall (fun x => f x = false) xs -> positions_from f o xs = [].
Proof.
  intros Hxs. revert o. induction Hxs as [|x xs Hx _ IH]; intros o; simpl; [done|].
  by rewrite Hx.
Qed.

Lemma positions_from_unique {A} (f : A -> bool) (o p : nat) (xs : list A) x :
  xs !! p = Some x -> f x = true ->
  (forall q y, xs !! q = Some y -> f y = true -> q = p) ->
  positions_from f o xs = [(o + p)%nat].
Proof.
  revert o p. induction xs as [|y xs IH]; intros o p Hp Hx Huniq; [done|].
  destruct p as [|p]; simpl in *.
  - injection Hp as ->. rewrite Hx, positions_from_none; [f_equal; lia|].
    apply Forall_forall. intros z Hz.
    destruct (f z) eqn:E; [|done].
    apply list_elem_of_lookup in Hz as [q Hq].
    by specialize (Huniq (S q) z Hq E).
  - destruct (f y) eqn:E.
    + by specialize (Huniq 0%nat y eq_refl E).
    + rewrite (IH (S o) p Hp Hx); [f_equal; lia|].
      intros q z Hq Hz. specialize (Huniq (S q) z Hq Hz). lia.
Qed.

(** Every failure of a label lookup is a KeyError. *)
Lemma loc_getitem_Raise df key name e :
  loc_getitem df key name = Raise e -> e = KeyError.
Proof.
  unfold_loc_getitem.
  destruct (columns df !! name) as [col|]; simpl; [|congruence].
  destruct (index df) as [|ix levels].
  - destruct (key <? 0); [congruence|].
    destruct (column_nth col (Z.to_nat key)); simpl; congruence.
  - destruct (index_positions W_of_Z key ix) as [|p [|p' ps]]; [congruence| |].
    + destruct levels; [|done].
      destruct (column_nth col p); simpl; congruence.
    + by destruct levels.
Qed.

Lemma loc_getitem_missing df ix levels key name :
  index df = ix :: levels -> index_positions W_of_Z key ix = [] ->
  loc_getitem df key name = Raise KeyError.
Proof.
  intros Hix Hpos. unfold_loc_getitem.
  destruct (columns df !! name) as [col|]; simpl; [|done].
  by rewrite Hix, Hpos.
Qed.

Lemma loc_getitem_unique df ids col key name p x :
  index df = [IntCol ids] -> columns df !! name = Some col ->
  ids !! p = Some key -> (forall q, ids !! q = Some key -> q = p) ->
  column_nth col p = Some x ->
  loc_getitem df key name = Ok (Scalar x).
Proof.
  intros Hix Hcol Hp Huniq Hx. unfold_loc_getitem.
  rewrite Hcol, Hix. simpl.
  rewrite (positions_from_unique _ 0 p ids key Hp).
  - simpl. by rewrite Hx.
  - by apply bool_decide_eq_true_2.
  - intros q y Hq Hy. apply bool_decide_eq_true_1 in Hy as ->. by apply Huniq.
Qed.

Lemma index_positions_absent ids key :
  key ∉ ids -> index_positions W_of_Z key (IntCol ids) = [].
Proof.
  intros Hnot. simpl. apply positions_from_none, Forall_forall.
  intros x Hx. apply bool_decide_eq_false_2. by intros ->.
Qed.

(** ** The artist directory *)

Context {MS : Type}.
Variable model_fit : MS -> csr_matrix W -> result unit * MS.
Variable model_recommend :
  MS -> Z -> csr_matrix W -> Z -> result (list Z * list W) * MS.
Variable model_fit_object : MS -> object W MS -> result unit * MS.

Local Abbreviation get_artist_name_from_id :=
  (get_artist_name_from_id W_of_Z (MS := MS)).
Local Abbreviation load_artists := (load_artists read_csv (MS := MS)).
Local Abbreviation recommend := (recommend W_of_Z model_recommend).

Lemma get_artist_name_from_id_loaded (h : heap W MS) self df artist_id :
  h !! self = Some (ArtistRetrieverObj (Some df)) ->
  get_artist_name_from_id self artist_id h = (loc_getitem df artist_id "name", h).
Proof. intros Hself. unfold_M. by rewrite Hself. Qed.

Lemma get_artist_name_from_id_None (h : heap W MS) self artist_id :
  h !! self = Some (ArtistRetrieverObj None) ->
  get_artist_name_from_id self artist_id h = (Raise AttributeError, h).
Proof. intros Hself. unfold_M. by rewrite Hself. Qed.

Lemma load_artists_Ok (h : heap W MS) self old path raw df :
  h !! self = Some (ArtistRetrieverObj old) ->
  read_csv path = Ok raw -> set_index ["id"] raw = Ok df ->
  load_artists self path h = (Ok (), <[self := ArtistRetrieverObj (Some df)]> h).
Proof. intros Hself Hraw Hdf. unfold_M. by rewrite Hself, Hraw, Hdf. Qed.

Lemma load_artists_cases (h : heap W MS) self path :
  (exists e, load_artists self path h = (Raise e, h)) \/
  (exists old raw df,
     h !! self = Some (ArtistRetrieverObj old) /\
     read_csv path = Ok raw /\ set_index ["id"] raw = Ok df /\
     load_artists self path h = (Ok (), <[self := ArtistRetrieverObj (Some df)]> h)).
Proof.
  unfold_M.
  destruct (h !! self) as [[old| | |]|] eqn:Hself; try (left; by eexists).
  destruct (read_csv path) as [raw|] eqn:Hraw; [|left; by eexists].
  destruct (set_index ["id"] raw) as [df|] eqn:Hdf; [|left; by eexists].
  right. by exists old, raw, df.
Qed.

(** C4 (round trip through the directory).  After [load_artists] on a
    file with integer column [id] and a column [name], a lookup of an id
    that occurs in exactly one row returns the [name] cell of that row,
    and a lookup of an id that occurs in no row raises KeyError. *)
Theorem load_artists_then_name (h : heap W MS) self old path raw ids names :
  h !! self = Some (ArtistRetrieverObj old) ->
  read_csv path = Ok raw ->
  columns raw !! "id" = Some (IntCol ids) ->
  columns raw !! "name" = Some names ->
  exists h1,
    load_artists self path h = (Ok (), h1) /\
    (forall p artist_id x,
       ids !! p = Some artist_id ->
       (forall q, ids !! q = Some artist_id -> q = p) ->
       column_nth names p = Some x ->
       get_artist_name_from_id self artist_id h1 = (Ok (Scalar x), h1)) /\
    (forall artist_id, artist_id ∉ ids ->
       get_artist_name_from_id self artist_id h1 = (Raise KeyError, h1)).
Proof.
  intros Hself Hraw Hid Hname.
  set (df := {| index := [IntCol ids]; columns := delete "id" (columns raw) |}).
  assert (Hdf : set_index ["id"] raw = Ok df).
  { unfold set_index. simpl. by rewrite Hid. }
  exists (<[self := ArtistRetrieverObj (Some df)]> h).
  split; [by apply load_artists_Ok with old raw|].
  split.
  - intros p artist_id x Hp Huniq Hx.
    rewrite (get_artist_name_from_id_loaded _ _ df) by apply lookup_insert_eq.
    f_equal. apply loc_getitem_unique with ids names p; try done.
    simpl. by rewrite lookup_delete_ne.
  - intros artist_id Habsent.
    rewrite (get_artist_name_from_id_loaded _ _ df) by apply lookup_insert_eq.
    f_equal. apply loc_getitem_missing with (IntCol ids) []; [done|].
    by apply index_positions_absent.
Qed.

(** C8 (lookup before load).  A new directory holds no table; a load
    that raises leaves a directory without a table as it is; and on a
    directory without a table the lookup of any id raises
    AttributeError. *)
Theorem name_before_load (h : heap W MS) :
  (exists self,
     ArtistRetriever_init h = (Ok self, <[self := ArtistRetrieverObj None]> h) /\
     (<[self := ArtistRetrieverObj None]> h) !! self = Some (ArtistRetrieverObj None)) /\
  (forall self path e h',
     h !! self = Some (ArtistRetrieverObj None) ->
     load_artists self path h = (Raise e, h') ->
     h' !! self = Some (ArtistRetrieverObj None)) /\
  (forall self artist_id,
     h !! self = Some (ArtistRetrieverObj None) ->
     get_artist_name_from_id self artist_id h = (Raise AttributeError, h)).
Proof.
  split; [|split].
  - eexists. split; [reflexivity|]. apply lookup_insert_eq.
  - intros self path e h' Hself Hload.
    destruct (load_artists_cases h self path)
      as [[e' He]|(old & raw & df & _ & _ & _ & Hok)]; congruence.
  - intros self artist_id Hself. by apply get_artist_name_from_id_None.
Qed.

(** C9 (load replaces the table in one step).  A load that raises leaves
    the heap as it was.  A load that returns has changed the heap in one
    place only: the table of [self] is now the complete indexed table
    built from the file. *)
Theorem load_artists_atomic (h : heap W MS) self path :
  match load_artists self path h with
  | (Raise _, h') => h' = h
  | (Ok _, h') =>
      exists old raw df,
        h !! self = Some (ArtistRetrieverObj old) /\
        read_csv path = Ok raw /\ set_index ["id"] raw = Ok df /\
        h' = <[self := ArtistRetrieverObj (Some df)]> h
  end.
Proof.
  destruct (load_artists_cases h self path)
    as [[e ->]|(old & raw & df & Hself & Hraw & Hdf & ->)]; [done|].
  by exists old, raw, df.
Qed.

(** ** The facade *)

Local Abbreviation model_answers := (model_answers model_recommend).

Lemma mapM_heap_pure {A B} (f : A -> M W MS B) (g : A -> result B)
    (h : heap W MS) (xs : list A) :
  (forall a, f a h = (g a, h)) -> mapM_heap f xs h = (result_map g xs, h).
Proof.
  intros Hf. induction xs as [|x xs IH]; [done|].
  simpl. unfold bind at 1. rewrite Hf.
  destruct (g x) as [y|e]; [|done]. simpl.
  unfold bind at 1. rewrite IH. by destruct (result_map g xs).
Qed.

Lemma mapM_heap_frame {A B} (f : A -> M W MS B) (h : heap W MS) (xs : list A) :
  (forall a, (f a h).2 = h) -> (mapM_heap f xs h).2 = h.
Proof.
  intros Hf. induction xs as [|x xs IH]; [done|].
  simpl. unfold bind at 1. specialize (Hf x).
  destruct (f x h) as [[y|e] h1]; simpl in Hf; subst h1; [|done].
  unfold bind at 1. destruct (mapM_heap f xs h) as [[ys|e] h1]; by simpl in *.
Qed.

(** The translation of one id reads the heap and leaves it as it is. *)
Lemma translate_frame (h : heap W MS) self artist_id :
  (bind (get_artist_retriever self)
        (fun ar => get_artist_name_from_id ar artist_id) h).2 = h.
Proof.
  unfold_M.
  destruct (h !! self) as [[| ar im | |]|]; try done. simpl.
  destruct (h !! ar) as [[[df|]| | |]|]; try done.
Qed.

Lemma recommend_answer (h : heap W MS) self user_id m n ar im s' ids scores df :
  model_answers h self user_id m n ar im s' ids scores ->
  h !! ar = Some (ArtistRetrieverObj (Some df)) ->
  recommend self user_id m n h =
    (names ← result_map (fun id => loc_getitem df id "name") ids; Ok (names, scores),
     <[im := ModelObj s']> h).
Proof.
  intros [Hself (s & mat & row & Him & Hm & Hrow & Hans)] Har.
  assert (self <> im) by congruence. assert (ar <> im) by congruence.
  unfold_recommend.
  unfold get_implicit_model, get_model_state, get_matrix,
    get_artist_retriever, read, write, lift, ret, raise, bind.
  repeat (first [rewrite Hself | rewrite Him | rewrite Hm | rewrite Hrow | rewrite Hans];
          cbv beta iota).
  rewrite (mapM_heap_pure _ (fun id => loc_getitem df id "name")).
  - by destruct (result_map _ ids).
  - intros id. rewrite lookup_insert_ne, Hself by done.
    apply get_artist_name_from_id_loaded. by rewrite lookup_insert_ne.
Qed.

Lemma result_map_Forall2 {A B} (f : A -> result B) (xs : list A) (ys : list B) :
  result_map f xs = Ok ys -> Forall2 (fun x y => f x = Ok y) xs ys.
Proof.
  revert ys. induction xs as [|x xs IH]; intros ys; simpl.
  - intros [= <-]. constructor.
  - destruct (f x) as [y|] eqn:Hx; [|done]. simpl.
    destruct (result_map f xs) as [ys'|]; [|done]. simpl.
    intros [= <-]. constructor; [done|]. by apply IH.
Qed.

Lemma result_map_total {A B} (f : A -> result B) (xs : list A) :
  Forall (fun x => is_Ok (f x) = true) xs -> exists ys, result_map f xs = Ok ys.
Proof.
  induction 1 as [|x xs Hx _ [ys IH]]; simpl; [by eexists|].
  destruct (f x) as [y|]; [|done]. rewrite IH. by eexists.
Qed.

(** C3, as amended (parallel sequences).  When the model answers and
    every id it returns has a name, the call returns the model's scores
    as they are, together with exactly one name per id, in the model's
    order: position [k] of the names is the translation of position [k]
    of the ids, repeated ids included.  The names are as many as the
    model's ids: the facade compares them neither with the number of
    scores nor with [n]. *)
Theorem recommend_parallel (h : heap W MS) self user_id m n ar im s' ids scores df :
  model_answers h self user_id m n ar im s' ids scores ->
  h !! ar = Some (ArtistRetrieverObj (Some df)) ->
  Forall (fun id => is_Ok (loc_getitem df id "name") = true) ids ->
  exists names,
    recommend self user_id m n h = (Ok (names, scores), <[im := ModelObj s']> h) /\
    length names = length ids /\
    Forall2 (fun id name => loc_getitem df id "name" = Ok name) ids names.
Proof.
  intros Hans Har Hnames.
  destruct (result_map_total _ _ Hnames) as [names Hmap].
  exists names. rewrite (recommend_answer _ _ _ _ _ _ _ _ _ _ _ Hans Har), Hmap.
  split; [done|].
  pose proof (result_map_length _ _ _ Hmap) as Hl.
  split; [lia|]. by apply result_map_Forall2.
Qed.

(** C5 (an id without a name).  When the model answers and one of its
    ids carries no label of the directory's index, the call raises
    KeyError: no pair of sequences is returned. *)
Theorem recommend_missing_name (h : heap W MS) self user_id m n ar im s' ids scores
    df ix levels :
  model_answers h self user_id m n ar im s' ids scores ->
  h !! ar = Some (ArtistRetrieverObj (Some df)) ->
  index df = ix :: levels ->
  Exists (fun id => index_positions W_of_Z id ix = []) ids ->
  recommend self user_id m n h = (Raise KeyError, <[im := ModelObj s']> h).
Proof.
  intros Hans Har Hix Hmiss.
  rewrite (recommend_answer _ _ _ _ _ _ _ _ _ _ _ Hans Har).
  rewrite (result_map_Raise _ KeyError); [done| |].
  - apply Forall_forall. intros id _.
    destruct (loc_getitem df id "name") as [x|e] eqn:Hid; [left; done|].
    right. by rewrite (loc_getitem_Raise _ _ _ _ Hid).
  - eapply Exists_impl; [exact Hmiss|]. simpl. intros id Hid.
    by apply loc_getitem_missing with ix levels.
Qed.

(** The heap after a call of [recommend]: as before, or as before
    except for the state of the facade's model. *)
Lemma recommend_heap (h : heap W MS) self user_id m n :
  (recommend self user_id m n h).2 = h \/
  exists ar im s s',
    h !! self = Some (ImplicitRecommenderObj ar im) /\
    h !! im = Some (ModelObj s) /\
    (recommend self user_id m n h).2 = <[im := ModelObj s']> h.
Proof.
  unfold_recommend.
  unfold get_implicit_model, get_model_state, get_matrix,
    read, write, lift, ret, raise, bind.
  destruct (h !! self) as [[| ar im | |]|] eqn:Hself; try (left; done).
  destruct (h !! im) as [[| | s |]|] eqn:Him; try (left; done).
  destruct (h !! m) as [[| | | mat]|] eqn:Hm; try (left; done).
  destruct (getrow mat n) as [row|] eqn:Hrow; [|left; done].
  rewrite Him.
  destruct (model_recommend s user_id row n) as [[[ids scores]|e] s'] eqn:Hans;
    right; exists ar, im, s, s'; (split; [done|]); (split; [done|]); [|done].
  match goal with
  | |- (let (_, _) := mapM_heap ?f ?xs ?h0 in _).2 = _ =>
      pose proof (mapM_heap_frame f h0 xs) as Hframe;
      destruct (mapM_heap f xs h0) as [[names|e] h1]
  end; simpl in *; apply Hframe; intros a; apply translate_frame.
Qed.

(** C10 (frame of [recommend]).  A call of [recommend] changes no
    directory, no facade and no matrix, creates and removes no object,
    and leaves every model a model: whatever the outcome, the heap
    differs from the one before at most in the state of a model. *)
Theorem recommend_frame (h : heap W MS) self user_id m n :
  let h' := (recommend self user_id m n h).2 in
  (forall l df, h !! l = Some (ArtistRetrieverObj df) ->
     h' !! l = Some (ArtistRetrieverObj df)) /\
  (forall l ar im, h !! l = Some (ImplicitRecommenderObj ar im) ->
     h' !! l = Some (ImplicitRecommenderObj ar im)) /\
  (forall l mat, h !! l = Some (MatrixObj mat) -> h' !! l = Some (MatrixObj mat)) /\
  (forall l s, h !! l = Some (ModelObj s) -> exists s', h' !! l = Some (ModelObj s')) /\
  (forall l, h !! l = None -> h' !! l = None).
Proof.
  intros h'. subst h'.
  destruct (recommend_heap h self user_id m n)
    as [->|(ar & im & s & s' & Hself & Him & ->)].
  { repeat split; try done. intros l s Hl. by exists s. }
  repeat split.
  - intros l df Hl. rewrite lookup_insert_ne; [done|congruence].
  - intros l ar' im' Hl. rewrite lookup_insert_ne; [done|congruence].
  - intros l mat Hl. rewrite lookup_insert_ne; [done|congruence].
  - intros l s0 Hl. destruct (decide (im = l)) as [->|Hne].
    + exists s'. apply lookup_insert_eq.
    + exists s0. by rewrite lookup_insert_ne.
  - intros l Hl. rewrite lookup_insert_ne; [done|congruence].
Qed.

(** ** More on the loader *)

(** X1 (when the loader returns).  The loader returns a matrix only on
    a file that parses to a table with integer [userID] and [artistID]
    columns of non-negative ids, a [weight] column that converts to
    floats, one value per row and at least one row; the matrix is then
    the one the library builds from the three columns.  On a file that
    does not parse to such a table it raises. *)
Theorem load_user_artists_returns path :
  (forall M, load_user_artists path = Ok M ->
     exists df users items weights,
       read_csv path = Ok df /\ interactions_table df users items weights /\
       M = interaction_matrix users items weights) /\
  ((forall df users items weights,
      read_csv path = Ok df -> ~ interactions_table df users items weights) ->
   exists e, load_user_artists path = Raise e).
Proof.
  split; [apply load_user_artists_Ok_inv|].
  intros Hno. destruct (load_user_artists path) as [M|e] eqn:Hload; [|by exists e].
  apply load_user_artists_Ok_inv in Hload
    as (df & users & items & weights & Hread & Hdf & _).
  by destruct (Hno df users items weights Hread).
Qed.

(** X2 (a header without rows).  On a table that has the three columns
    and a convertible weight column but no row, the loader raises
    ValueError: no shape can be inferred. *)
Theorem load_user_artists_no_rows path df cu ci cw ws :
  read_csv path = Ok df ->
  columns df !! "userID" = Some cu -> columns df !! "artistID" = Some ci ->
  columns df !! "weight" = Some cw -> astype_float cw = Ok ws ->
  col_length cu = 0%nat \/ col_length ci = 0%nat ->
  load_user_artists path = Raise ValueError.
Proof.
  intros Hread Hu Hi Hw Hws Hempty.
  unfold_load_user_artists. rewrite Hread. simpl.
  unfold set_index. simpl. rewrite Hu, Hi. simpl.
  unfold getattr_column. simpl. rewrite !lookup_delete_ne, Hw by done. simpl.
  rewrite Hws. simpl. unfold coo_matrix_init.
  by rewrite bool_decide_eq_true_2.
Qed.

Lemma list_min_negative (xs : list Z) :
  Exists (fun x => x < 0) xs -> list_min xs < 0.
Proof.
  intros (x & Hx & Hneg)%Exists_exists.
  pose proof (proj1 (Forall_forall _ _) (list_min_le xs) x Hx). simpl in *. lia.
Qed.

(** X3 (a negative id).  On a table whose id columns are integers, with
    one weight per row, and in which some userID or artistID is
    negative, the loader raises ValueError. *)
Theorem load_user_artists_negative_id path df users items cw ws :
  read_csv path = Ok df ->
  columns df !! "userID" = Some (IntCol users) ->
  columns df !! "artistID" = Some (IntCol items) ->
  columns df !! "weight" = Some cw -> astype_float cw = Ok ws ->
  length users = length ws -> length items = length ws ->
  Exists (fun u => u < 0) users \/ Exists (fun i => i < 0) items ->
  load_user_artists path = Raise ValueError.
Proof.
  intros Hread Hu Hi Hw Hws Hlu Hli Hneg.
  unfold_load_user_artists. rewrite Hread. simpl.
  unfold set_index. simpl. rewrite Hu, Hi. simpl.
  unfold getattr_column. simpl. rewrite !lookup_delete_ne, Hw by done. simpl.
  rewrite Hws. simpl. unfold coo_matrix_init. simpl.
  case_bool_decide as Hlen0; [done|]. simpl.
  rewrite bool_decide_eq_true_2 by done.
  destruct Hneg as [H|H]; apply list_min_negative in H.
  - destruct (list_min users <? 0) eqn:E; [done|lia].
  - destruct (list_min items <? 0) eqn:E; [by rewrite orb_true_r|lia].
Qed.





(** ** More on the artist directory *)

(** X5 (how a load fails).  On a directory, [load_artists] raises
    exactly when the file cannot be read, with the exception of the
    reader, or when the table read has no column [id], with KeyError.
    The dtype of the [id] column and the presence of a [name] column are
    not examined. *)
Theorem load_artists_raises (h : heap W MS) self old path e :
  h !! self = Some (ArtistRetrieverObj old) ->
  ((load_artists self path h).1 = Raise e <->
   read_csv path = Raise e \/
   exists raw, read_csv path = Ok raw /\ columns raw !! "id" = None /\ e = KeyError).
Proof.
  intros Hself. unfold_M. rewrite Hself. simpl.
  destruct (read_csv path) as [raw|e'] eqn:Hraw; simpl.
  - unfold set_index. simpl.
    destruct (columns raw !! "id") as [ix|] eqn:Hid; simpl.
    + split; [done|]. intros [H|(raw' & [= <-] & H & _)]; congruence.
    + split.
      * intros [= <-]. right. by exists raw.
      * intros [H|(raw' & _ & _ & ->)]; [done|done].
  - split.
    + intros [= ->]. by left.
    + intros [[= ->]|(raw & H & _)]; [done|done].
Qed.

(** X6 (the last load wins).  Two loads in a row that both return leave
    the heap as the second load alone would: nothing of the first table
    is kept. *)
Theorem load_artists_twice (h h1 h2 : heap W MS) self old path1 path2 :
  h !! self = Some (ArtistRetrieverObj old) ->
  load_artists self path1 h = (Ok (), h1) ->
  load_artists self path2 h1 = (Ok (), h2) ->
  load_artists self path2 h = (Ok (), h2).
Proof.
  intros Hself H1 H2.
  destruct (load_artists_cases h self path1)
    as [[e He]|(old1 & raw1 & df1 & _ & _ & _ & Hok1)]; [congruence|].
  destruct (load_artists_cases h1 self path2)
    as [[e He]|(old2 & raw2 & df2 & _ & Hraw2 & Hdf2 & Hok2)]; [congruence|].
  rewrite (load_artists_Ok h self old path2 raw2 df2) by done.
  f_equal. rewrite H2 in Hok2. injection Hok2 as ->.
  rewrite H1 in Hok1. injection Hok1 as ->.
  by rewrite insert_insert_eq.
Qed.

(** X7 (a lookup reads only).  A lookup leaves the heap as it is,
    whatever its outcome; it raises nothing but KeyError and
    AttributeError, and on a loaded directory nothing but KeyError. *)
Theorem get_artist_name_from_id_reads (h h' : heap W MS) self artist_id r :
  get_artist_name_from_id self artist_id h = (r, h') ->
  h' = h /\
  (forall e, r = Raise e -> e = KeyError \/ e = AttributeError) /\
  (forall df e, h !! self = Some (ArtistRetrieverObj (Some df)) ->
     r = Raise e -> e = KeyError).
Proof.
  unfold_M.
  destruct (h !! self) as [[[df|]| | |]|] eqn:Hself; intros [= <- <-];
    (split; [done|]); (split; [|intros df' e' [= <-] He'; try done]);
    try (intros e [= <-]; by right).
  - intros e He. left. by apply loc_getitem_Raise in He.
  - by apply loc_getitem_Raise in He'.
Qed.

Lemma positions_from_elem {A} (f : A -> bool) (o : nat) (xs : list A) (p : nat) :
  p ∈ positions_from f o xs <->
  exists i x, p = (o + i)%nat /\ xs !! i = Some x /\ f x = true.
Proof.
  revert o. induction xs as [|y xs IH]; intros o; simpl.
  - rewrite elem_of_nil. split; [done|]. by intros (i & x & _ & Hi & _).
  - destruct (f y) eqn:Hy.
    + rewrite elem_of_cons, IH. split.
      * intros [->|(i & x & -> & Hi & Hx)].
        -- exists 0%nat, y. split; [lia|done].
        -- exists (S i), x. split; [lia|done].
      * intros ([|i] & x & -> & Hi & Hx).
        -- left. lia.
        -- right. exists i, x. split; [lia|done].
    + rewrite IH. split.
      * intros (i & x & -> & Hi & Hx). exists (S i), x. split; [lia|done].
      * intros ([|i] & x & -> & Hi & Hx).
        -- simpl in Hi. injection Hi as ->. congruence.
        -- exists i, x. split; [lia|done].
Qed.

(** X8 (an id that occurs in several rows).  On a directory whose index
    holds an id in two rows or more, the lookup of that id returns no
    name but a Series: the [name] cells of all the rows with that id. *)
Theorem get_artist_name_repeated_id (h : heap W MS) self df ids names artist_id p q :
  h !! self = Some (ArtistRetrieverObj (Some df)) ->
  index df = [IntCol ids] -> columns df !! "name" = Some names ->
  ids !! p = Some artist_id -> ids !! q = Some artist_id -> p <> q ->
  exists xs,
    get_artist_name_from_id self artist_id h = (Ok (Series xs), h) /\
    forall x, x ∈ xs <->
      exists i, ids !! i = Some artist_id /\ column_nth names i = Some x.
Proof.
  intros Hself Hix Hname Hp Hq Hpq.
  rewrite (get_artist_name_from_id_loaded h self df) by done.
  unfold_loc_getitem. rewrite Hname, Hix. simpl.
  set (ps := positions_from (fun x => bool_decide (x = artist_id)) 0 ids).
  assert (Hps : forall i, i ∈ ps <-> ids !! i = Some artist_id).
  { intros i. unfold ps. rewrite positions_from_elem. split.
    - intros (j & x & -> & Hj & Hx). apply bool_decide_eq_true_1 in Hx as ->. done.
    - intros Hi. exists i, artist_id. split; [done|]. split; [done|].
      by apply bool_decide_eq_true_2. }
  exists (omap (column_nth names) ps). split.
  - destruct ps as [|p1 [|p2 ps']] eqn:E; [| |done].
    + apply Hps in Hp. by apply elem_of_nil in Hp.
    + apply Hps in Hp. apply Hps in Hq.
      apply list_elem_of_singleton in Hp. apply list_elem_of_singleton in Hq.
      congruence.
  - intros x. rewrite list_elem_of_omap. split.
    + intros (i & Hi & Hx). exists i. by rewrite <- Hps.
    + intros (i & Hi & Hx). exists i. by rewrite Hps.
Qed.

(** X9 (a file without names).  A file with a column [id] and no column
    [name] loads without error; afterwards the lookup of every id
    raises KeyError. *)
Theorem load_artists_without_name (h : heap W MS) self old path raw :
  h !! self = Some (ArtistRetrieverObj old) ->
  read_csv path = Ok raw ->
  is_Some (columns raw !! "id") -> columns raw !! "name" = None ->
  exists h1,
    load_artists self path h = (Ok (), h1) /\
    forall artist_id,
      get_artist_name_from_id self artist_id h1 = (Raise KeyError, h1).
Proof.
  intros Hself Hraw [ix Hid] Hname.
  set (df := {| index := [ix]; columns := delete "id" (columns raw) |}).
  assert (Hdf : set_index ["id"] raw = Ok df).
  { unfold set_index. simpl. by rewrite Hid. }
  exists (<[self := ArtistRetrieverObj (Some df)]> h).
  split; [by apply load_artists_Ok with old raw|].
  intros artist_id.
  rewrite (get_artist_name_from_id_loaded _ _ df) by apply lookup_insert_eq.
  f_equal. unfold_loc_getitem. simpl.
  by rewrite lookup_delete_ne, Hname.
Qed.

(** ** More on the facade *)

Ltac unfold_fit := unfold fit, call_model.
Local Abbreviation fit := (fit model_fit model_fit_object).

Lemma fit_on_model (h : heap W MS) self ar im s m mat :
  h !! self = Some (ImplicitRecommenderObj ar im) ->
  h !! im = Some (ModelObj s) -> h !! m = Some (MatrixObj mat) ->
  fit self m h = ((model_fit s mat).1, <[im := ModelObj (model_fit s mat).2]> h).
Proof.
  intros Hself Him Hm. unfold_fit.
  unfold get_implicit_model, get_model_state, read, write, lift, ret, raise, bind.
  repeat (first [rewrite Hself | rewrite Him | rewrite Hm]; cbv beta iota).
  by destruct (model_fit s mat) as [[[]|e] s'].
Qed.

Lemma fit_on_object (h : heap W MS) self ar im s m o :
  h !! self = Some (ImplicitRecommenderObj ar im) ->
  h !! im = Some (ModelObj s) -> h !! m = Some o ->
  (forall mat, o <> MatrixObj mat) ->
  fit self m h =
    ((model_fit_object s o).1, <[im := ModelObj (model_fit_object s o).2]> h).
Proof.
  intros Hself Him Hm Ho. unfold_fit.
  unfold get_implicit_model, get_model_state, read, write, lift, ret, raise, bind.
  repeat (first [rewrite Hself | rewrite Him | rewrite Hm]; cbv beta iota).
  destruct o as [df|ar' im'|s0|mat]; try (by destruct (Ho mat));
    rewrite Him; by destruct (model_fit_object s _) as [[[]|e] s'].
Qed.

(** X10 ([fit] delegates).  On a facade over a model, [fit] hands the
    model the whole matrix, returns or raises as the model's [fit] does,
    and changes nothing in the heap but the state of that model. *)
Theorem fit_delegates (h : heap W MS) self ar im s m mat :
  h !! self = Some (ImplicitRecommenderObj ar im) ->
  h !! im = Some (ModelObj s) -> h !! m = Some (MatrixObj mat) ->
  fit self m h = ((model_fit s mat).1, <[im := ModelObj (model_fit s mat).2]> h) /\
  forall l, l <> im -> (fit self m h).2 !! l = h !! l.
Proof.
  intros Hself Him Hm. rewrite (fit_on_model h self ar im s m mat) by done.
  split; [done|]. intros l Hl. simpl. by rewrite lookup_insert_ne.
Qed.

(** X11 (an exception of the model).  When the model's [recommend]
    raises, the facade raises the same exception: no id is translated,
    and the heap has changed in the state of the model only. *)
Theorem recommend_model_raises (h : heap W MS) self user_id m n ar im s s' mat row e :
  h !! self = Some (ImplicitRecommenderObj ar im) ->
  h !! im = Some (ModelObj s) -> h !! m = Some (MatrixObj mat) ->
  getrow mat n = Ok row ->
  model_recommend s user_id row n = (Raise e, s') ->
  recommend self user_id m n h = (Raise e, <[im := ModelObj s']> h).
Proof.
  intros Hself Him Hm Hrow Hans. unfold_recommend.
  unfold get_implicit_model, get_model_state, get_matrix,
    read, write, lift, ret, raise, bind.
  by repeat (first [rewrite Hself | rewrite Him | rewrite Hm | rewrite Hrow | rewrite Hans];
             cbv beta iota).
Qed.

Lemma recommend_IndexError (h : heap W MS) self user_id m n ar im s mat :
  h !! self = Some (ImplicitRecommenderObj ar im) ->
  h !! im = Some (ModelObj s) -> h !! m = Some (MatrixObj mat) ->
  n < - (shape mat).1 \/ (shape mat).1 <= n ->
  recommend self user_id m n h = (Raise IndexError, h).
Proof.
  intros Hself Him Hm Hn. unfold_recommend.
  unfold get_implicit_model, get_model_state, get_matrix,
    read, write, lift, ret, raise, bind.
  repeat (first [rewrite Hself | rewrite Him | rewrite Hm]; cbv beta iota).
  unfold getrow, norm_index.
  destruct (n <? - (shape mat).1) eqn:E1; [done|].
  destruct ((shape mat).1 <=? n) eqn:E2; [done|]. lia.
Qed.

Lemma getrow_in_range (mat : csr_matrix W) (n : Z) :
  - (shape mat).1 <= n < (shape mat).1 -> exists row, getrow mat n = Ok row.
Proof.
  intros Hn. unfold getrow, norm_index.
  destruct (n <? - (shape mat).1) eqn:E1; [lia|].
  destruct ((shape mat).1 <=? n) eqn:E2; [lia|]. simpl. by eexists.
Qed.

(** X12 (a count that is no row index).  When [n] lies outside
    [-rows, rows) of the matrix, [recommend] raises IndexError whatever
    [user_id] is: the model is not called and the heap is unchanged.
    When [n] lies inside, the model is called with row [n], whatever
    [user_id] is, a row index or not. *)
Theorem recommend_row_out_of_range (h : heap W MS) self user_id m n ar im s mat :
  h !! self = Some (ImplicitRecommenderObj ar im) ->
  h !! im = Some (ModelObj s) -> h !! m = Some (MatrixObj mat) ->
  (n < - (shape mat).1 \/ (shape mat).1 <= n ->
     recommend self user_id m n h = (Raise IndexError, h)) /\
  (- (shape mat).1 <= n < (shape mat).1 ->
     exists row, getrow mat n = Ok row /\
       (recommend self user_id m n h).2
         = <[im := ModelObj (model_recommend s user_id row n).2]> h).
Proof.
  intros Hself Him Hm. split; [by apply (recommend_IndexError h self user_id m n ar im s mat)|].
  intros Hn. destruct (getrow_in_range mat n Hn) as [row Hrow].
  exists row. split; [done|]. unfold_recommend.
  unfold get_implicit_model, get_model_state, get_matrix,
    read, write, lift, ret, raise, bind.
  repeat (first [rewrite Hself | rewrite Him | rewrite Hm | rewrite Hrow]; cbv beta iota).
  destruct (model_recommend s user_id row n) as [[[ids scores]|e] s'] eqn:Hans; [|done].
  match goal with
  | |- (let (_, _) := mapM_heap ?f ?xs ?h0 in _).2 = _ =>
      pose proof (mapM_heap_frame f h0 xs) as Hframe;
      destruct (mapM_heap f xs h0) as [[names|e] h1]
  end; simpl in *; apply Hframe; intros a; apply translate_frame.
Qed.

(** X13 (no id to translate).  When the model answers with no id, the
    call returns the empty list of names with the model's scores, and
    the directory is not consulted: it need not be loaded. *)
Theorem recommend_no_ids (h : heap W MS) self user_id m n ar im s' scores :
  model_answers h self user_id m n ar im s' [] scores ->
  recommend self user_id m n h = (Ok ([], scores), <[im := ModelObj s']> h).
Proof.
  intros [Hself (s & mat & row & Him & Hm & Hrow & Hans)]. unfold_recommend.
  unfold get_implicit_model, get_model_state, get_matrix,
    read, write, lift, ret, raise, bind.
  by repeat (first [rewrite Hself | rewrite Him | rewrite Hm | rewrite Hrow | rewrite Hans];
             cbv beta iota).
Qed.

(** X14 (a directory that was never loaded).  When the model answers
    with at least one id and the facade's directory holds no table, the
    call raises AttributeError, after the model has been called. *)
Theorem recommend_unloaded_directory (h : heap W MS) self user_id m n ar im s'
    id ids scores :
  model_answers h self user_id m n ar im s' (id :: ids) scores ->
  h !! ar = Some (ArtistRetrieverObj None) ->
  recommend self user_id m n h = (Raise AttributeError, <[im := ModelObj s']> h).
Proof.
  intros [Hself (s & mat & row & Him & Hm & Hrow & Hans)] Har.
  assert (self <> im) by congruence. assert (ar <> im) by congruence.
  unfold_recommend.
  unfold get_implicit_model, get_model_state, get_matrix,
    read, write, lift, ret, raise, bind.
  repeat (first [rewrite Hself | rewrite Him | rewrite Hm | rewrite Hrow | rewrite Hans];
          cbv beta iota).
  simpl. unfold get_artist_retriever, read, ret, bind.
  rewrite lookup_insert_ne, Hself by done.
  rewrite get_artist_name_from_id_None; [done|].
  by rewrite lookup_insert_ne.
Qed.

(** X15 (the directory is shared, not copied).  A table loaded into the
    directory after the facade was built is the table [recommend]
    translates with. *)
Theorem recommend_after_late_load (h h1 : heap W MS) self user_id m n ar im s'
    ids scores old path :
  model_answers h self user_id m n ar im s' ids scores ->
  h !! ar = Some (ArtistRetrieverObj old) ->
  load_artists ar path h = (Ok (), h1) ->
  exists raw df,
    read_csv path = Ok raw /\ set_index ["id"] raw = Ok df /\
    recommend self user_id m n h1 =
      (names ← result_map (fun id => loc_getitem df id "name") ids; Ok (names, scores),
       <[im := ModelObj s']> h1).
Proof.
  intros [Hself (s & mat & row & Him & Hm & Hrow & Hans)] Har Hload.
  destruct (load_artists_cases h ar path)
    as [[e He]|(old' & raw & df & _ & Hraw & Hdf & Hok)]; [congruence|].
  rewrite Hload in Hok. injection Hok as ->.
  exists raw, df. do 2 (split; [done|]).
  apply recommend_answer with ar.
  - split.
    + rewrite lookup_insert_ne; [done|congruence].
    + exists s, mat, row. repeat split; try done;
        (rewrite lookup_insert_ne; [done|congruence]).
  - apply lookup_insert_eq.
Qed.

(** ** The scripts *)

Ltac unfold_main := unfold main.
Ltac unfold_MR_main := unfold MR_main.
Local Abbreviation main :=
  (main wadd W_of_Z float_of_string order read_csv model_fit model_recommend
        model_fit_object).
Local Abbreviation MR_main :=
  (MR_main wadd W_of_Z float_of_string order read_csv (MS := MS)).

Lemma bind_Ok {A B} (m : M W MS A) (k : A -> M W MS B) (h h' : heap W MS) a :
  m h = (Ok a, h') -> bind m k h = k a h'.
Proof. intros Hm. unfold bind. by rewrite Hm. Qed.

Lemma bind_Raise {A B} (m : M W MS A) (k : A -> M W MS B) (h h' : heap W MS) e :
  m h = (Raise e, h') -> bind m k h = (Raise e, h').
Proof. intros Hm. unfold bind. by rewrite Hm. Qed.

(** The heap of the script of recommender.py after its constructors and
    the load of the directory. *)
Lemma main_setup uaf af (als : MS) mat raw ix (k : loc -> loc -> M W MS (list (value W) * list W)) :
  load_user_artists uaf = Ok mat ->
  read_csv af = Ok raw -> columns raw !! "id" = Some ix ->
  bind (bind (lift (load_user_artists uaf)) (fun mat => alloc (MatrixObj mat)))
    (fun user_artists =>
       bind ArtistRetriever_init (fun artist_retriever =>
       bind (load_artists artist_retriever af) (fun _ =>
       bind (alloc (ModelObj als)) (fun implict_model =>
       bind (ImplicitRecommender_init artist_retriever implict_model) (fun recommender =>
       k recommender user_artists))))) ∅ =
  k 4%positive 1%positive
    (<[4%positive := ImplicitRecommenderObj 2%positive 3%positive]>
     (<[3%positive := ModelObj als]>
      (<[2%positive := ArtistRetrieverObj
           (Some {| index := [ix]; columns := delete "id" (columns raw) |})]>
       (<[2%positive := ArtistRetrieverObj None]>
        (<[1%positive := MatrixObj mat]> ∅))))).
Proof.
  intros Hload Hraw Hid.
  rewrite (bind_Ok _ _ ∅ (<[1%positive := MatrixObj mat]> ∅) 1%positive)
    by (unfold bind, lift, alloc; by rewrite Hload).
  rewrite (bind_Ok _ _ _ (<[2%positive := ArtistRetrieverObj None]>
                            (<[1%positive := MatrixObj mat]> ∅)) 2%positive)
    by reflexivity.
  rewrite (bind_Ok _ _ _
             (<[2%positive := ArtistRetrieverObj
                  (Some {| index := [ix]; columns := delete "id" (columns raw) |})]>
                (<[2%positive := ArtistRetrieverObj None]>
                   (<[1%positive := MatrixObj mat]> ∅))) ()).
  2:{ apply load_artists_Ok with None raw; [reflexivity|done|].
      unfold set_index. simpl. by rewrite Hid. }
  rewrite (bind_Ok _ _ _ (<[3%positive := ModelObj als]> _) 3%positive) by reflexivity.
  by rewrite (bind_Ok _ _ _ (<[4%positive := ImplicitRecommenderObj 2%positive 3%positive]> _)
                4%positive) by reflexivity.
Qed.

(** X16 (the script of recommender.py).  When both files load, the
    model's [fit] returns on the whole matrix, the matrix has a row 10
    and the fitted model answers the request for user 3 with that row
    and N = 10, the script's names are the translations of the model's
    ids by the loaded directory, with the model's scores; it raises
    KeyError if an id has no name. *)
Theorem main_run uaf af (als : MS) mat raw ix s1 row ids scores s2 :
  load_user_artists uaf = Ok mat ->
  read_csv af = Ok raw -> columns raw !! "id" = Some ix ->
  model_fit als mat = (Ok (), s1) ->
  getrow mat 10 = Ok row ->
  model_recommend s1 3 row 10 = (Ok (ids, scores), s2) ->
  (main uaf af als ∅).1 =
    (names ← result_map
        (fun id => loc_getitem {| index := [ix]; columns := delete "id" (columns raw) |}
                               id "name") ids;
     Ok (names, scores)).
Proof.
  intros Hload Hraw Hid Hfit Hrow Hrec. unfold_main.
  rewrite (main_setup uaf af als mat raw ix) by done.
  erewrite bind_Ok.
  2:{ rewrite (fit_on_model _ 4%positive 2%positive 3%positive als 1%positive mat)
        by reflexivity.
      rewrite Hfit. reflexivity. }
  erewrite recommend_answer; [reflexivity| |].
  - split; [reflexivity|]. exists s1, mat, row. repeat split; try done; reflexivity.
  - reflexivity.
Qed.


(** X18 (the script stops at the first file that fails).  When the
    interaction file fails to load the script raises that exception and
    has created no object; when the artists file cannot be read it
    raises that exception and no model or facade exists: nothing is
    fitted. *)
Theorem main_load_failure uaf af (als : MS) e :
  (load_user_artists uaf = Raise e -> main uaf af als ∅ = (Raise e, ∅)) /\
  (forall mat, load_user_artists uaf = Ok mat -> read_csv af = Raise e ->
     main uaf af als ∅ =
       (Raise e, <[2%positive := ArtistRetrieverObj None]>
                   (<[1%positive := MatrixObj mat]> ∅))).
Proof.
  split.
  - intros Hload. unfold_main.
    apply bind_Raise. unfold bind, lift. by rewrite Hload.
  - intros mat Hload Hraw. unfold_main.
    rewrite (bind_Ok _ _ ∅ (<[1%positive := MatrixObj mat]> ∅) 1%positive)
      by (unfold bind, lift, alloc; by rewrite Hload).
    rewrite (bind_Ok _ _ _ (<[2%positive := ArtistRetrieverObj None]>
                              (<[1%positive := MatrixObj mat]> ∅)) 2%positive)
      by reflexivity.
    apply bind_Raise. unfold_M.
    change ((<[2%positive := ArtistRetrieverObj None]>
               (<[1%positive := MatrixObj mat]> (∅ : heap W MS))) !! 2%positive)
      with (Some (ArtistRetrieverObj (W := W) (MS := MS) None)).
    by rewrite Hraw.
Qed.

(** X19 (the script of MR.py).  When both files load, the script's
    second output is the [name] cell of the one row of the artists file
    whose id is 1; it raises KeyError when no row has id 1. *)
Theorem MR_main_run uaf af mat raw ids names :
  load_user_artists uaf = Ok mat ->
  read_csv af = Ok raw ->
  columns raw !! "id" = Some (IntCol ids) -> columns raw !! "name" = Some names ->
  (forall p x, ids !! p = Some 1 -> (forall q, ids !! q = Some 1 -> q = p) ->
     column_nth names p = Some x ->
     (MR_main uaf af ∅).1 = Ok (mat, Scalar x)) /\
  (1 ∉ ids -> (MR_main uaf af ∅).1 = Raise KeyError).
Proof.
  intros Hload Hraw Hid Hname.
  set (df := {| index := [IntCol ids]; columns := delete "id" (columns raw) |}).
  set (h1 := <[1%positive := ArtistRetrieverObj (Some df)]>
               (<[1%positive := ArtistRetrieverObj None]> (∅ : heap W MS))).
  assert (Hrun : (MR_main uaf af ∅).1 = (x ← loc_getitem df 1 "name"; Ok (mat, x))).
  { unfold_MR_main.
    rewrite (bind_Ok _ _ ∅ ∅ mat) by (unfold lift; by rewrite Hload).
    rewrite (bind_Ok _ _ ∅ (<[1%positive := ArtistRetrieverObj None]> ∅) 1%positive)
      by reflexivity.
    rewrite (bind_Ok _ _ _ h1 ()).
    2:{ apply load_artists_Ok with None raw; [reflexivity|done|].
        unfold set_index. simpl. by rewrite Hid. }
    unfold bind.
    rewrite (get_artist_name_from_id_loaded h1 1%positive df) by reflexivity.
    by destruct (loc_getitem df 1 "name"). }
  rewrite Hrun. split.
  - intros p x Hp Huniq Hx.
    rewrite (loc_getitem_unique df ids names 1 "name" p x); try done.
    simpl. by rewrite lookup_delete_ne.
  - intros Habsent.
    rewrite (loc_getitem_missing df (IntCol ids) [] 1 "name"); [done|done|].
    by apply index_positions_absent.
Qed.

End Properties.

(** * The statements at the concrete world *)

Example scenario_entry :
  (ex_load_user_artists "scenario.dat" ≫= fun M => getitem 0 M 1 10) = Ok 8.
Proof. reflexivity. Qed.

(** The same scenario with 64-bit floats, in whatever order the library
    adds the two weights. *)
Example scenario_entry_float (order : coo_order float) :
  (float_load_user_artists order "scenario.dat" ≫= fun M => getitem (float_of_Z 0) M 1 10)
    = Ok (float_of_Z 8).
Proof.
  destruct order as [r Hr].
  pose proof (Hr [(1, 10, float_of_Z 5); (1, 10, float_of_Z 3)]) as Hp.
  symmetry in Hp. apply permutations_Permutation in Hp.
  remember (r [(1, 10, float_of_Z 5); (1, 10, float_of_Z 3)]) as l eqn:El.
  vm_compute in El. vm_compute. rewrite <- El. clear El r Hr.
  cbv [permutations interleave mbind list_bind fmap list_fmap app] in Hp.
  repeat (apply elem_of_cons in Hp as [->|Hp]; [vm_compute; reflexivity|]).
  by apply elem_of_nil in Hp.
Qed.

Example ex_main_heap :
  (ex_main (Ok ([2; 1; 2], [9; 8; 7]))).2 =
    <[3%positive := ModelObj (mkSpy (Ok ([2; 1; 2], [9; 8; 7])) true [(3, ex_row_10, 10)])]>
      (ex_heap (Ok ([2; 1; 2], [9; 8; 7]))).
Proof. vm_compute. reflexivity. Qed.

(** C1 (the row handed to the model).  The script calls
    [recommend(3, user_artists, n=10)]: the model is called once, with
    user 3 and the matrix row of index 10, which is not the row of user
    3.  On the two-row matrix of "scenario.dat" the same call on behalf
    of user 1, a row of the matrix, raises IndexError before the model
    is reached. *)
Theorem recommend_passes_row_n :
  calls_of ((ex_main (Ok ([], []))).2 !! 3%positive) = [(3, ex_row_10, 10)] /\
  calls_of ((ex_recommend 4 3 1 10 (ex_heap (Ok ([], [])))).2 !! 3%positive)
    = [(3, ex_row_10, 10)] /\
  getrow ex_matrix 10 = Ok ex_row_10 /\
  getrow ex_matrix 3 = Ok ex_row_3 /\
  ex_row_3 <> ex_row_10 /\
  is_Ok (getrow ex_small_matrix 1) = true /\
  ex_recommend 4 1 1 10 (<[1%positive := MatrixObj ex_small_matrix]> (ex_heap (Ok ([], []))))
    = (Raise IndexError,
       <[1%positive := MatrixObj ex_small_matrix]> (ex_heap (Ok ([], [])))).
Proof.
  repeat split; try (vm_compute; reflexivity).
  intros H. discriminate H.
Qed.

(** C2 at "scenario.dat": rows (1, 10, 5) and (1, 10, 3), integer
    weights of total 8 under exact addition, give [M[1, 10] = 8]; an
    absent pair gives zero, and the entries sum to the sum of the weight
    column. *)
Lemma load_user_artists_sums_witness :
  exact_add 0 Z.add id 8 /\ summable id 8 [5; 3] /\
  exists M,
    ex_load_user_artists "scenario.dat" = Ok M /\
    getitem 0 M 1 10 = Ok 8 /\
    getitem 0 M 0 10 = Ok 0 /\
    csr_sum 0 Z.add M = 5 + 3.
Proof.
  assert (exact_add 0 Z.add id 8) as Hadd
    by (split; unfold id; intros; lia).
  assert (summable id 8 [5; 3]) as Hsummable
    by (split; [repeat constructor; unfold id; lia|vm_compute; discriminate]).
  do 2 (split; [assumption|]).
  exists ex_small_matrix. split; [reflexivity|].
  destruct (load_user_artists_sums 0 Z.add id Z_of_string ex_order ex_read_csv
              "scenario.dat" ex_small_matrix)
    as (df & users & items & weights & Hread
        & [Hu Hi (c & Hc & Hws) _ _ _ _ _] & _ & Hexact); [reflexivity|].
  vm_compute in Hread. injection Hread as <-.
  vm_compute in Hu. injection Hu as <-.
  vm_compute in Hi. injection Hi as <-.
  vm_compute in Hc. injection Hc as <-.
  vm_compute in Hws. injection Hws as <-.
  destruct (Hexact id 8 Hadd Hsummable) as [Hentry Hsum].
  split; [|split].
  - rewrite (Hentry 1 10) by (simpl; lia). reflexivity.
  - rewrite (Hentry 0 10) by (simpl; lia). reflexivity.
  - rewrite Hsum. reflexivity.
Defined.

(** C2 as written does not hold of every valid file.  A file with the
    three columns and no row yields no matrix.  With weights 10^16, 1
    and 1 on one pair, the entry and the sum of all entries are 10^16,
    while the weights add up to 10^16 + 2, itself a float.  With weights
    1, 2^53 and 1, the two 1s on one pair, the entries are 2^53 and 2
    and add up to 2^53 + 2 in whatever order the library adds, while the
    weight column, added up from either end, gives 2^53. *)
Lemma load_user_artists_sums_rounded :
  (ex_read_csv_more "no_rows.dat" = Ok ex_no_rows /\
   ex_load_user_artists_more "no_rows.dat" = Raise ValueError) /\
  (float_load_user_artists file_order "large.dat" = Ok ex_large_matrix /\
   getitem (float_of_Z 0) ex_large_matrix 1 10 = Ok (float_of_Z 10000000000000000) /\
   csr_sum (float_of_Z 0) PrimFloat.add ex_large_matrix = float_of_Z 10000000000000000 /\
   float_of_Z 10000000000000000 <> float_of_Z (10000000000000000 + 1 + 1)) /\
  ((forall order, float_load_user_artists order "rounding.dat" = Ok ex_rounding_matrix) /\
   getitem (float_of_Z 0) ex_rounding_matrix 0 0 = Ok (float_of_Z 9007199254740992) /\
   getitem (float_of_Z 0) ex_rounding_matrix 0 1 = Ok (float_of_Z (1 + 1)) /\
   csr_sum (float_of_Z 0) PrimFloat.add ex_rounding_matrix
     = float_of_Z (1 + 9007199254740992 + 1) /\
   wsum (float_of_Z 0) PrimFloat.add
        [float_of_Z 1; float_of_Z 9007199254740992; float_of_Z 1]
     = float_of_Z 9007199254740992 /\
   wsum_left (float_of_Z 0) PrimFloat.add
        [float_of_Z 1; float_of_Z 9007199254740992; float_of_Z 1]
     = float_of_Z 9007199254740992 /\
   float_of_Z (1 + 9007199254740992 + 1) <> float_of_Z 9007199254740992).
Proof.
  split; [split; reflexivity|]. split.
  - repeat split; try (vm_compute; reflexivity).
    intros E.
    assert (PrimFloat.eqb (float_of_Z 10000000000000000)
              (float_of_Z (10000000000000000 + 1 + 1)) = false) as H
      by (vm_compute; reflexivity).
    rewrite <- E in H. vm_compute in H. discriminate H.
  - split; [|repeat split; try (vm_compute; reflexivity)].
    + intros [r Hr].
      pose proof (Hr [(0, 1, float_of_Z 1); (0, 0, float_of_Z 9007199254740992);
                      (0, 1, float_of_Z 1)]) as Hp.
      symmetry in Hp. apply permutations_Permutation in Hp.
      remember (r [(0, 1, float_of_Z 1); (0, 0, float_of_Z 9007199254740992);
                   (0, 1, float_of_Z 1)]) as l eqn:El.
      vm_compute in El. vm_compute. rewrite <- El. clear El r Hr.
      cbv [permutations interleave mbind list_bind fmap list_fmap app] in Hp.
      repeat (apply elem_of_cons in Hp as [->|Hp]; [vm_compute; reflexivity|]).
      by apply elem_of_nil in Hp.
    + intros E.
      assert (PrimFloat.eqb (float_of_Z (1 + 9007199254740992 + 1))
                (float_of_Z 9007199254740992) = false) as H
        by (vm_compute; reflexivity).
      rewrite E in H. vm_compute in H. discriminate H.
Qed.

(** C6 at "user_artists.dat": ids 3 and 10 on the user axis, 1 and 2 on
    the artist axis. *)
Lemma load_user_artists_shape_witness :
  exists df users items weights,
    ex_read_csv "user_artists.dat" = Ok df /\
    interactions_table id Z_of_string df users items weights /\
    list_max users ∈ users /\ list_max items ∈ items /\
    shape ex_matrix = (list_max users + 1, list_max items + 1) /\
    length (rows ex_matrix) = Z.to_nat (list_max users + 1) /\
    Forall (fun t => exists r, rows ex_matrix !! Z.to_nat t.1.1 = Some r /\ t.1.2 ∈ r.*1)
           (zip (zip users items) weights).
Proof.
  apply (load_user_artists_shape 0 Z.add id Z_of_string ex_order ex_read_csv "user_artists.dat").
  reflexivity.
Defined.

(** C7: the claimed kinds of error are not the ones raised. *)
Lemma load_user_artists_error_kinds :
  ex_read_csv "no_weight.dat" = Ok ex_no_weight /\
  columns ex_no_weight !! "weight" = None /\
  ex_load_user_artists "no_weight.dat" = Raise AttributeError /\
  ex_load_user_artists "no_weight.dat" <> Raise ParserError /\
  ex_read_csv "no_user.dat" = Ok ex_no_user /\
  columns ex_no_user !! "userID" = None /\
  ex_load_user_artists "no_user.dat" = Raise KeyError /\
  ex_load_user_artists "no_user.dat" <> Raise ParserError /\
  ex_read_csv "bad_weight.dat" = Ok ex_bad_weight /\
  columns ex_bad_weight !! "weight" = Some (ObjCol ["5"; "abc"]) /\
  Z_of_string "abc" = None /\
  ex_load_user_artists "bad_weight.dat" = Raise ValueError /\
  ex_load_user_artists "bad_weight.dat" <> Raise TypeError.
Proof.
  repeat split; try reflexivity; intros H; vm_compute in H; discriminate H.
Qed.

(** C7, as amended, at the three malformed files. *)
Lemma load_user_artists_malformed_witness :
  ex_load_user_artists "no_user.dat" = Raise KeyError /\
  ex_load_user_artists "no_weight.dat" = Raise AttributeError /\
  ex_load_user_artists "bad_weight.dat" = Raise ValueError.
Proof.
  split; [|split].
  - apply (load_user_artists_malformed Z.add id Z_of_string ex_order ex_read_csv
             "no_user.dat" ex_no_user); [reflexivity|].
    left. reflexivity.
  - apply (load_user_artists_malformed Z.add id Z_of_string ex_order ex_read_csv
             "no_weight.dat" ex_no_weight); [reflexivity| | |reflexivity].
    + eexists. reflexivity.
    + eexists. reflexivity.
  - apply (load_user_artists_malformed Z.add id Z_of_string ex_order ex_read_csv
             "bad_weight.dat" ex_bad_weight) with (xs := ["5"; "abc"]);
      [reflexivity| | |reflexivity|].
    + eexists. reflexivity.
    + eexists. reflexivity.
    + right. left. reflexivity.
Defined.

(** C4 at "artists.dat": rows (1, "A") and (2, "B"). *)
Lemma load_artists_then_name_witness :
  exists h1 : heap Z spy,
    ex_load_artists 1 "artists.dat" (<[1%positive := ArtistRetrieverObj None]> ∅)
      = (Ok (), h1) /\
    ex_get_artist_name_from_id 1 1 h1 = (Ok (Scalar (SStr "A")), h1) /\
    ex_get_artist_name_from_id 1 2 h1 = (Ok (Scalar (SStr "B")), h1) /\
    ex_get_artist_name_from_id 1 3 h1 = (Raise KeyError, h1).
Proof.
  destruct (load_artists_then_name id ex_read_csv
              (<[1%positive := ArtistRetrieverObj None]> ∅ : heap Z spy)
              1%positive None "artists.dat" ex_artists [1; 2] (ObjCol ["A"; "B"]))
    as (h1 & Hload & Hname & Hmiss); try reflexivity.
  exists h1. split; [exact Hload|]. split; [|split].
  - apply (Hname 0%nat 1 (SStr "A")); [reflexivity| |reflexivity].
    intros [|[|q]] Hq; [reflexivity|discriminate Hq|discriminate Hq].
  - apply (Hname 1%nat 2 (SStr "B")); [reflexivity| |reflexivity].
    intros [|[|q]] Hq; [discriminate Hq|reflexivity|discriminate Hq].
  - apply Hmiss. intros Hin.
    apply elem_of_cons in Hin as [Hin|Hin]; [discriminate Hin|].
    apply elem_of_cons in Hin as [Hin|Hin]; [discriminate Hin|].
    apply elem_of_nil in Hin. exact Hin.
Defined.

(** C8 on a new directory, also after a load of a file that does not
    exist. *)
Lemma name_before_load_witness :
  ex_get_artist_name_from_id 1 7 (<[1%positive := ArtistRetrieverObj None]> ∅)
    = (Raise AttributeError, <[1%positive := ArtistRetrieverObj None]> ∅) /\
  (ex_load_artists 1 "missing.dat" (<[1%positive := ArtistRetrieverObj None]> ∅)).2
    !! 1%positive = Some (ArtistRetrieverObj None).
Proof.
  destruct (name_before_load id ex_read_csv
              (<[1%positive := ArtistRetrieverObj None]> ∅ : heap Z spy))
    as (_ & Hload & Hget).
  split.
  - apply Hget. reflexivity.
  - apply (Hload 1%positive "missing.dat" FileNotFoundError); reflexivity.
Defined.

(** C9: a load that fails over a loaded directory, and one that
    succeeds. *)
Lemma load_artists_atomic_witness :
  ex_load_artists 2 "missing.dat" (ex_heap (Ok ([], [])))
    = (Raise FileNotFoundError, ex_heap (Ok ([], []))) /\
  exists old raw df,
    ex_heap (Ok ([], [])) !! 2%positive = Some (ArtistRetrieverObj old) /\
    ex_read_csv "artists.dat" = Ok raw /\ set_index ["id"] raw = Ok df /\
    (ex_load_artists 2 "artists.dat" (ex_heap (Ok ([], [])))).2
      = <[2%positive := ArtistRetrieverObj (Some df)]> (ex_heap (Ok ([], []))).
Proof.
  split.
  - pose proof (load_artists_atomic ex_read_csv (ex_heap (Ok ([], [])))
                  2%positive "missing.dat") as H.
    change (load_artists ex_read_csv 2%positive "missing.dat" (ex_heap (Ok ([], []))))
      with (Raise (A := unit) FileNotFoundError,
            (ex_load_artists 2 "missing.dat" (ex_heap (Ok ([], [])))).2) in H.
    simpl in H. unfold ex_load_artists at 1.
    change (load_artists ex_read_csv 2%positive "missing.dat" (ex_heap (Ok ([], []))))
      with (Raise (A := unit) FileNotFoundError,
            (ex_load_artists 2 "missing.dat" (ex_heap (Ok ([], [])))).2).
    rewrite H. reflexivity.
  - pose proof (load_artists_atomic ex_read_csv (ex_heap (Ok ([], [])))
                  2%positive "artists.dat") as H.
    change (load_artists ex_read_csv 2%positive "artists.dat" (ex_heap (Ok ([], []))))
      with (Ok (), (ex_load_artists 2 "artists.dat" (ex_heap (Ok ([], [])))).2) in H.
    exact H.
Defined.

(** C3, as amended, with a model that answers ids 2, 1, 2. *)
Lemma recommend_parallel_witness :
  exists names,
    ex_recommend 4 3 1 10 (ex_heap (Ok ([2; 1; 2], [9; 8; 7])))
      = (Ok (names, [9; 8; 7]),
         <[3%positive := ModelObj (mkSpy (Ok ([2; 1; 2], [9; 8; 7])) true
                                         [(3, ex_row_10, 10)])]>
           (ex_heap (Ok ([2; 1; 2], [9; 8; 7])))) /\
    length names = length [2; 1; 2] /\
    Forall2 (fun k name => loc_getitem id ex_directory k "name" = Ok name)
            [2; 1; 2] names.
Proof.
  apply (recommend_parallel id spy_recommend (ex_heap (Ok ([2; 1; 2], [9; 8; 7])))
           4%positive 3 1%positive 10 2%positive 3%positive).
  - split; [reflexivity|].
    exists (mkSpy (Ok ([2; 1; 2], [9; 8; 7])) true []), ex_matrix, ex_row_10.
    repeat split; reflexivity.
  - reflexivity.
  - repeat constructor.
Defined.

(** C3 as written does not hold of every call: with [n = 0] and a model
    that answers three ids and two scores, the call returns three names
    and two scores. *)
Lemma recommend_lengths_unchecked :
  exists names scores,
    (ex_recommend 4 3 1 0 (ex_heap (Ok ([2; 1; 2], [9; 8])))).1 = Ok (names, scores) /\
    names = [Scalar (SStr "B"); Scalar (SStr "A"); Scalar (SStr "B")] /\
    scores = [9; 8] /\
    length names <> length scores /\
    ~ (Z.of_nat (length names) <= 0).
Proof.
  exists [Scalar (SStr "B"); Scalar (SStr "A"); Scalar (SStr "B")], [9; 8].
  repeat split; try reflexivity.
  - discriminate.
  - simpl. lia.
Qed.

(** C5 with a model that answers ids 1 and 3; the directory holds 1 and
    2. *)
Lemma recommend_missing_name_witness :
  ex_recommend 4 3 1 10 (ex_heap (Ok ([1; 3], [9; 8])))
    = (Raise KeyError,
       <[3%positive := ModelObj (mkSpy (Ok ([1; 3], [9; 8])) true
                                       [(3, ex_row_10, 10)])]>
         (ex_heap (Ok ([1; 3], [9; 8])))).
Proof.
  apply (recommend_missing_name id spy_recommend (ex_heap (Ok ([1; 3], [9; 8])))
           4%positive 3 1%positive 10 2%positive 3%positive _ [1; 3] [9; 8]
           ex_directory (IntCol [1; 2]) []).
  - split; [reflexivity|].
    exists (mkSpy (Ok ([1; 3], [9; 8])) true []), ex_matrix, ex_row_10.
    repeat split; reflexivity.
  - reflexivity.
  - reflexivity.
  - right. left. reflexivity.
Defined.

(** C10 at the script's call. *)
Lemma recommend_frame_witness :
  let h := ex_heap (Ok ([2; 1; 2], [9; 8; 7])) in
  let h' := (ex_recommend 4 3 1 10 h).2 in
  h' !! 2%positive = Some (ArtistRetrieverObj (Some ex_directory)) /\
  h' !! 4%positive = Some (ImplicitRecommenderObj 2%positive 3%positive) /\
  h' !! 1%positive = Some (MatrixObj ex_matrix) /\
  h' !! 5%positive = None.
Proof.
  intros h h'.
  destruct (recommend_frame id spy_recommend h 4%positive 3 1%positive 10)
    as (Hdir & Hfac & Hmat & _ & Hnone).
  split; [|split; [|split]].
  - apply Hdir. reflexivity.
  - apply Hfac. reflexivity.
  - apply Hmat. reflexivity.
  - apply Hnone. reflexivity.
Defined.

(** ** The further statements at the concrete world *)

(** X1 at "user_artists.dat", which loads, and at "no_weight.dat",
    which does not parse to a table with the three columns. *)
Lemma load_user_artists_returns_witness :
  ex_load_user_artists "user_artists.dat" = Ok ex_matrix /\
  (exists df users items weights,
     ex_read_csv "user_artists.dat" = Ok df /\
     interactions_table id Z_of_string df users items weights /\
     ex_matrix = interaction_matrix Z.add ex_order users items weights) /\
  (forall df users items weights,
     ex_read_csv "no_weight.dat" = Ok df ->
     ~ interactions_table id Z_of_string df users items weights) /\
  exists e, ex_load_user_artists "no_weight.dat" = Raise e.
Proof.
  assert (forall df users items weights,
            ex_read_csv "no_weight.dat" = Ok df ->
            ~ interactions_table id Z_of_string df users items weights) as Hno.
  { intros df users items weights Hread [_ _ (c & Hc & _) _ _ _ _ _].
    vm_compute in Hread. injection Hread as <-.
    vm_compute in Hc. discriminate Hc. }
  split; [reflexivity|]. split; [|split; [exact Hno|]].
  - apply (load_user_artists_returns Z.add id Z_of_string ex_order ex_read_csv
             "user_artists.dat"). reflexivity.
  - apply (load_user_artists_returns Z.add id Z_of_string ex_order ex_read_csv
             "no_weight.dat"). exact Hno.
Defined.

(** X2 at a header without rows. *)
Lemma load_user_artists_no_rows_witness :
  ex_load_user_artists_more "no_rows.dat" = Raise ValueError.
Proof.
  apply (load_user_artists_no_rows Z.add id Z_of_string ex_order ex_read_csv_more
           "no_rows.dat" ex_no_rows (ObjCol []) (ObjCol []) (ObjCol []) []);
    try reflexivity.
  left. reflexivity.
Defined.

(** X3 at a file with userID -1. *)
Lemma load_user_artists_negative_id_witness :
  ex_load_user_artists_more "negative.dat" = Raise ValueError.
Proof.
  apply (load_user_artists_negative_id Z.add id Z_of_string ex_order ex_read_csv_more
           "negative.dat" ex_negative [1; -1] [10; 3] (IntCol [5; 7]) [5; 7]);
    try reflexivity.
  left. right. left. lia.
Defined.


(** X5 at a file that does not exist and at a table without [id]. *)
Lemma load_artists_raises_witness :
  (ex_load_artists_more 1 "missing.dat" ex_new_directory).1 = Raise FileNotFoundError /\
  (ex_load_artists_more 1 "no_weight.dat" ex_new_directory).1 = Raise KeyError /\
  (ex_load_artists_more 1 "no_name.dat" ex_new_directory).1 <> Raise KeyError.
Proof.
  split; [|split].
  - apply (load_artists_raises ex_read_csv_more ex_new_directory 1%positive None
             "missing.dat" FileNotFoundError); [reflexivity|].
    left. reflexivity.
  - apply (load_artists_raises ex_read_csv_more ex_new_directory 1%positive None
             "no_weight.dat" KeyError); [reflexivity|].
    right. exists ex_no_weight. repeat split; reflexivity.
  - intros H.
    apply (load_artists_raises ex_read_csv_more ex_new_directory 1%positive None
             "no_name.dat" KeyError) in H; [|reflexivity].
    destruct H as [H|(raw & Hraw & Hid & _)].
    + discriminate H.
    + vm_compute in Hraw. injection Hraw as <-. vm_compute in Hid. discriminate Hid.
Defined.

(** X6: "artists.dat", then "artists_2.dat". *)
Lemma load_artists_twice_witness :
  exists h2,
    ex_load_artists_more 1 "artists_2.dat"
      (ex_load_artists_more 1 "artists.dat" ex_new_directory).2 = (Ok (), h2) /\
    ex_load_artists_more 1 "artists_2.dat" ex_new_directory = (Ok (), h2) /\
    ex_get_artist_name_from_id 1 1 h2 = (Raise KeyError, h2) /\
    ex_get_artist_name_from_id 1 3 h2 = (Ok (Scalar (SStr "Y")), h2).
Proof.
  eexists. split; [reflexivity|]. split; [|split; reflexivity].
  apply (load_artists_twice ex_read_csv_more ex_new_directory
           (ex_load_artists_more 1 "artists.dat" ex_new_directory).2 _
           1%positive None "artists.dat" "artists_2.dat"); reflexivity.
Defined.

(** X7 at a failing and at a successful lookup. *)
Lemma get_artist_name_from_id_reads_witness :
  (ex_get_artist_name_from_id 2 3 (ex_heap (Ok ([], [])))).2 = ex_heap (Ok ([], [])) /\
  (forall e, (ex_get_artist_name_from_id 2 3 (ex_heap (Ok ([], [])))).1 = Raise e ->
     e = KeyError) /\
  (ex_get_artist_name_from_id 2 1 (ex_heap (Ok ([], [])))).2 = ex_heap (Ok ([], [])).
Proof.
  destruct (get_artist_name_from_id_reads id (ex_heap (Ok ([], [])))
              (ex_get_artist_name_from_id 2 3 (ex_heap (Ok ([], [])))).2
              2%positive 3
              (ex_get_artist_name_from_id 2 3 (ex_heap (Ok ([], [])))).1)
    as (Hheap & _ & Herr); [reflexivity|].
  split; [exact Hheap|]. split.
  - intros e He. apply (Herr ex_directory e); [reflexivity|exact He].
  - apply (get_artist_name_from_id_reads id (ex_heap (Ok ([], []))) _ 2%positive 1
             (ex_get_artist_name_from_id 2 1 (ex_heap (Ok ([], [])))).1).
    reflexivity.
Defined.

(** X8 at "repeated.dat": id 1 in rows 0 and 2. *)
Lemma get_artist_name_repeated_id_witness :
  exists xs,
    ex_get_artist_name_from_id 1 1
      (<[1%positive := ArtistRetrieverObj (Some ex_repeated_directory)]> ∅)
      = (Ok (Series xs),
         <[1%positive := ArtistRetrieverObj (Some ex_repeated_directory)]> ∅) /\
    forall x, x ∈ xs <->
      exists i, [1; 2; 1] !! i = Some 1 /\
                column_nth (ObjCol ["A"; "B"; "C"]) i = Some x.
Proof.
  apply (get_artist_name_repeated_id id
           (<[1%positive := ArtistRetrieverObj (Some ex_repeated_directory)]> ∅
              : heap Z spy)
           1%positive ex_repeated_directory [1; 2; 1] (ObjCol ["A"; "B"; "C"])
           1 0%nat 2%nat); try reflexivity.
  discriminate.
Defined.

(** X9 at "no_name.dat". *)
Lemma load_artists_without_name_witness :
  exists h1,
    ex_load_artists_more 1 "no_name.dat" ex_new_directory = (Ok (), h1) /\
    forall artist_id,
      ex_get_artist_name_from_id 1 artist_id h1 = (Raise KeyError, h1).
Proof.
  apply (load_artists_without_name id ex_read_csv_more ex_new_directory 1%positive
           None "no_name.dat" ex_no_name); try reflexivity.
  eexists. reflexivity.
Defined.

(** X10 at the script's heap. *)
Lemma fit_delegates_witness :
  ex_fit 4 1 (ex_heap (Ok ([], [])))
    = (Ok (), <[3%positive := ModelObj (mkSpy (Ok ([], [])) true [])]>
                (ex_heap (Ok ([], [])))) /\
  forall l, l <> 3%positive ->
    (ex_fit 4 1 (ex_heap (Ok ([], [])))).2 !! l = ex_heap (Ok ([], [])) !! l.
Proof.
  apply (fit_delegates spy_fit spy_fit_object (ex_heap (Ok ([], []))) 4%positive 2%positive 3%positive
           (mkSpy (Ok ([], [])) true []) 1%positive ex_matrix); reflexivity.
Defined.

(** X11 with a model that raises. *)
Lemma recommend_model_raises_witness :
  ex_recommend 4 3 1 10 (ex_heap (Raise ModelError))
    = (Raise ModelError,
       <[3%positive := ModelObj (mkSpy (Raise ModelError) true [(3, ex_row_10, 10)])]>
         (ex_heap (Raise ModelError))).
Proof.
  apply (recommend_model_raises id spy_recommend (ex_heap (Raise ModelError))
           4%positive 3 1%positive 10 2%positive 3%positive
           (mkSpy (Raise ModelError) true []) _ ex_matrix ex_row_10 ModelError);
    reflexivity.
Defined.

(** X12 on the matrix of eleven rows: n = 11 for user 3, and n = 3 for
    a user 99 that is no row. *)
Lemma recommend_row_out_of_range_witness :
  ex_recommend 4 3 1 11 (ex_heap (Ok ([], [])))
    = (Raise IndexError, ex_heap (Ok ([], []))) /\
  exists row,
    getrow ex_matrix 3 = Ok row /\
    (ex_recommend 4 99 1 3 (ex_heap (Ok ([], [])))).2
      = <[3%positive := ModelObj
            (spy_recommend (mkSpy (Ok ([], [])) true []) 99 row 3).2]>
          (ex_heap (Ok ([], []))).
Proof.
  split.
  - apply (recommend_row_out_of_range id spy_recommend (ex_heap (Ok ([], [])))
             4%positive 3 1%positive 11 2%positive 3%positive
             (mkSpy (Ok ([], [])) true []) ex_matrix); try reflexivity.
    right. simpl. lia.
  - apply (recommend_row_out_of_range id spy_recommend (ex_heap (Ok ([], [])))
             4%positive 99 1%positive 3 2%positive 3%positive
             (mkSpy (Ok ([], [])) true []) ex_matrix); try reflexivity.
    simpl. lia.
Defined.

(** X13 with a model that answers no id and a directory that was not
    loaded. *)
Lemma recommend_no_ids_witness :
  ex_recommend 4 3 1 10 (ex_heap_unloaded (Ok ([], [])))
    = (Ok ([], []),
       <[3%positive := ModelObj (mkSpy (Ok ([], [])) true [(3, ex_row_10, 10)])]>
         (ex_heap_unloaded (Ok ([], [])))).
Proof.
  apply (recommend_no_ids id spy_recommend (ex_heap_unloaded (Ok ([], [])))
           4%positive 3 1%positive 10 2%positive 3%positive).
  split; [reflexivity|].
  exists (mkSpy (Ok ([], [])) true []), ex_matrix, ex_row_10.
  repeat split; reflexivity.
Defined.

(** X14 with a model that answers id 1 and a directory that was not
    loaded. *)
Lemma recommend_unloaded_directory_witness :
  ex_recommend 4 3 1 10 (ex_heap_unloaded (Ok ([1], [9])))
    = (Raise AttributeError,
       <[3%positive := ModelObj (mkSpy (Ok ([1], [9])) true [(3, ex_row_10, 10)])]>
         (ex_heap_unloaded (Ok ([1], [9])))).
Proof.
  apply (recommend_unloaded_directory id spy_recommend (ex_heap_unloaded (Ok ([1], [9])))
           4%positive 3 1%positive 10 2%positive 3%positive _ 1 [] [9]).
  - split; [reflexivity|].
    exists (mkSpy (Ok ([1], [9])) true []), ex_matrix, ex_row_10.
    repeat split; reflexivity.
  - reflexivity.
Defined.

(** X15: the directory of the facade is loaded after the facade was
    built. *)
Lemma recommend_after_late_load_witness :
  exists raw df,
    ex_read_csv_more "artists_2.dat" = Ok raw /\ set_index ["id"] raw = Ok df /\
    ex_recommend 4 3 1 10
      (ex_load_artists_more 2 "artists_2.dat" (ex_heap_unloaded (Ok ([3], [9])))).2
    = (names ← result_map (fun k => loc_getitem id df k "name") [3]; Ok (names, [9]),
       <[3%positive := ModelObj (mkSpy (Ok ([3], [9])) true [(3, ex_row_10, 10)])]>
         (ex_load_artists_more 2 "artists_2.dat" (ex_heap_unloaded (Ok ([3], [9])))).2).
Proof.
  apply (recommend_after_late_load id ex_read_csv_more spy_recommend
           (ex_heap_unloaded (Ok ([3], [9]))) _
           4%positive 3 1%positive 10 2%positive 3%positive _ [3] [9] None "artists_2.dat").
  - split; [reflexivity|].
    exists (mkSpy (Ok ([3], [9])) true []), ex_matrix, ex_row_10.
    repeat split; reflexivity.
  - reflexivity.
  - reflexivity.
Defined.

(** X16: the script on "user_artists.dat" and "artists.dat" with a
    model that answers ids 2, 1, 2. *)
Lemma main_run_witness :
  (ex_script "user_artists.dat" "artists.dat" (Ok ([2; 1; 2], [9; 8; 7]))).1
    = Ok ([Scalar (SStr "B"); Scalar (SStr "A"); Scalar (SStr "B")], [9; 8; 7]).
Proof.
  apply (main_run Z.add id Z_of_string ex_order ex_read_csv_more spy_fit spy_recommend
           spy_fit_object
           "user_artists.dat" "artists.dat" (mkSpy (Ok ([2; 1; 2], [9; 8; 7])) false [])
           ex_matrix ex_artists (IntCol [1; 2])
           (mkSpy (Ok ([2; 1; 2], [9; 8; 7])) true []) ex_row_10 [2; 1; 2] [9; 8; 7]
           (mkSpy (Ok ([2; 1; 2], [9; 8; 7])) true [(3, ex_row_10, 10)]));
    reflexivity.
Defined.


(** X18: the script on an interaction file without weights, and on an
    artists file that does not exist. *)
Lemma main_load_failure_witness :
  ex_script "no_weight.dat" "artists.dat" (Ok ([], [])) = (Raise AttributeError, ∅) /\
  ex_script "user_artists.dat" "missing.dat" (Ok ([], []))
    = (Raise FileNotFoundError,
       <[2%positive := ArtistRetrieverObj None]> (<[1%positive := MatrixObj ex_matrix]> ∅)).
Proof.
  split.
  - apply (main_load_failure Z.add id Z_of_string ex_order ex_read_csv_more spy_fit spy_recommend
             spy_fit_object
             "no_weight.dat" "artists.dat" (mkSpy (Ok ([], [])) false []) AttributeError).
    reflexivity.
  - apply (main_load_failure Z.add id Z_of_string ex_order ex_read_csv_more spy_fit spy_recommend
             spy_fit_object
             "user_artists.dat" "missing.dat" (mkSpy (Ok ([], [])) false [])
             FileNotFoundError); reflexivity.
Defined.

(** X19: the script of MR.py on "user_artists.dat" with "artists.dat",
    and with "artists_2.dat", which has no artist 1. *)
Lemma MR_main_run_witness :
  (ex_MR_script "user_artists.dat" "artists.dat").1 = Ok (ex_matrix, Scalar (SStr "A")) /\
  (ex_MR_script "user_artists.dat" "artists_2.dat").1 = Raise KeyError.
Proof.
  split.
  - apply (MR_main_run Z.add id Z_of_string ex_order ex_read_csv_more (MS := spy)
             "user_artists.dat" "artists.dat" ex_matrix ex_artists [1; 2]
             (ObjCol ["A"; "B"])) with (p := 0%nat); try reflexivity.
    intros [|[|q]] Hq; [reflexivity|discriminate Hq|discriminate Hq].
  - apply (MR_main_run Z.add id Z_of_string ex_order ex_read_csv_more (MS := spy)
             "user_artists.dat" "artists_2.dat" ex_matrix ex_artists_2 [2; 3]
             (ObjCol ["X"; "Y"])); try reflexivity.
    intros Hin.
    apply elem_of_cons in Hin as [Hin|Hin]; [discriminate Hin|].
    apply elem_of_cons in Hin as [Hin|Hin]; [discriminate Hin|].
    apply elem_of_nil in Hin. exact Hin.
Defined.
